(** * GameDevMap: public club read API and intake-form checks

    A shallow embedding of [server/routes/clubs.js] (the two public read
    endpoints) and of the intake form script ([parseTags],
    [validateCoordinates], [collectLinks] and the payload built by the submit
    handler), together with a model of the approval pipeline that the
    repository documents but whose code is not part of the sources at hand. *)

From Stdlib Require Import List NArith ZArith Bool Lia String Ascii.
From Stdlib Require Import Permutation Sorted.
From Stdlib Require Import Floats.
Import ListNotations.

Set Warnings "-inexact-float,-register-all".

(** ** JavaScript data *)

(** A JavaScript string is a sequence of UTF-16 code units; [length] is the
    script's [.length]. *)
Definition char16 := N.
Definition jsstring := list char16.

(** An ASCII literal of the source as code units. *)
Definition js (s : string) : jsstring :=
  map N_of_ascii (list_ascii_of_string s).

(** ECMAScript [WhiteSpace] and [LineTerminator] code units, the ones
    [String.prototype.trim] strips. *)
Definition isWhiteSpace (c : char16) : bool :=
  ((9 <=? c) && (c <=? 13) || (c =? 32) || (c =? 160) || (c =? 5760)
   || (8192 <=? c) && (c <=? 8202) || (c =? 8232) || (c =? 8233)
   || (c =? 8239) || (c =? 8287) || (c =? 12288) || (c =? 65279))%N.

Fixpoint trimStart (s : jsstring) : jsstring :=
  match s with
  | c :: s' => if isWhiteSpace c then trimStart s' else s
  | [] => []
  end.

Definition trimEnd (s : jsstring) : jsstring := rev (trimStart (rev s)).

Definition trim (s : jsstring) : jsstring := trimEnd (trimStart s).

(** JavaScript values as far as the handlers build and read them. Numbers
    are IEEE 754 binary64. Property names are ASCII identifiers of the
    source. *)
Inductive value : Type :=
| VUndefined
| VNull
| VBool (b : bool)
| VNum (x : float)
| VStr (s : jsstring)
| VArr (xs : list value)
| VObj (props : list (string * value)).

(** [ToBoolean]. *)
Definition truthy (v : value) : bool :=
  match v with
  | VUndefined | VNull => false
  | VBool b => b
  | VNum x => negb (PrimFloat.eqb x 0 || PrimFloat.is_nan x)
  | VStr s => match s with [] => false | _ => true end
  | VArr _ | VObj _ => true
  end.

(** [a || b]. *)
Definition js_or (a b : value) : value := if truthy a then a else b.

Fixpoint assoc (k : string) (props : list (string * value)) : option value :=
  match props with
  | [] => None
  | (k', v) :: rest => if String.eqb k k' then Some v else assoc k rest
  end.

(** Property read [o.k]: [undefined] when the object has no such property. *)
Definition get (k : string) (o : value) : value :=
  match o with
  | VObj props => match assoc k props with Some v => v | None => VUndefined end
  | _ => VUndefined
  end.

(** The property names an object literal carries, in source order. *)
Definition keys (o : value) : list string :=
  match o with
  | VObj props => map fst props
  | _ => []
  end.

(** Array index [a[i]] on an array of numbers. *)
Definition index (a : list float) (i : nat) : value :=
  match nth_error a i with
  | Some x => VNum x
  | None => VUndefined
  end.

Definition ofOption {A} (inj : A -> value) (o : option A) : value :=
  match o with
  | Some a => inj a
  | None => VUndefined
  end.

Definition VStrs (l : list jsstring) : value := VArr (map VStr l).

Definition VStrObj (l : list (string * jsstring)) : value :=
  VObj (map (fun kv => (fst kv, VStr (snd kv))) l).

(** [array.length] as a number. *)
Definition lengthNum {A} (l : list A) : float :=
  PrimFloat.of_uint63 (Uint63.of_Z (Z.of_nat (List.length l))).

(** ** The Club collection *)

(** An ObjectId in its 24-digit hexadecimal string form, which is what
    [toString()] yields. *)
Definition ObjectId := jsstring.

(** Modelled from the spec: the Club schema ([server/models/Club.js] is not
    among the sources). Fields and their optionality follow the data model
    of the API reference: [name], [school], [province] and [coordinates] are
    required, the rest may be unset; [coordinates] is stored as
    [[longitude, latitude]]. *)
Record Club : Type := mkClub {
  _id : ObjectId;
  name : jsstring;
  school : jsstring;
  province : jsstring;
  city : option jsstring;
  coordinates : list float;
  description : option jsstring;
  shortDescription : option jsstring;
  tags : option (list jsstring);
  logo : option jsstring;
  website : option jsstring;
  contact : option (list (string * jsstring));
  sourceSubmission : option ObjectId;
  verifiedBy : option jsstring;
  createdAt : Z;
  updatedAt : Z;
  __v : option Z
}.

(** The [id] virtual of a document: its [_id] as a string. *)
Definition id_virtual (c : Club) : jsstring := _id c.

(** What the MongoDB driver and Mongoose decide and the repository does not:
    whether a pattern is a well-formed regular expression (the [RegExp]
    constructor throws [SyntaxError] otherwise), whether a compiled
    case-insensitive pattern matches a string, and which request strings cast
    to an ObjectId ([findById] rejects with [CastError] otherwise). *)
Record Driver : Type := mkDriver {
  regexCompiles : jsstring -> bool;
  regexMatch : jsstring -> jsstring -> bool;
  castObjectId : jsstring -> option ObjectId
}.

(** The authoritative store as the routes see it. *)
Record Store : Type := mkStore {
  connected : bool;
  clubs : list Club
}.

(** The result of awaiting a store call. *)
Inductive outcome (A : Type) : Type :=
| Resolved (a : A)
| Rejected.
Arguments Resolved {A} a.
Arguments Rejected {A}.

(** *** Queries *)

Inductive Field : Type := FName | FSchool | FProvince | FCity.

Definition fieldOf (f : Field) (c : Club) : option jsstring :=
  match f with
  | FName => Some (name c)
  | FSchool => Some (school c)
  | FProvince => Some (province c)
  | FCity => city c
  end.

(** [new RegExp(source, 'i')]. *)
Record RegExp : Type := mkRegExp { source : jsstring }.

(** The filter documents the list route builds: [{}] and
    [{ $or: [ { field: regex }, ... ] }]. *)
Inductive Query : Type :=
| QAll
| QOr (conds : list (Field * RegExp)).

Definition condHolds (d : Driver) (c : Club) (fr : Field * RegExp) : bool :=
  match fieldOf (fst fr) c with
  | Some s => regexMatch d (source (snd fr)) s
  | None => false
  end.

Definition queryHolds (d : Driver) (q : Query) (c : Club) : bool :=
  match q with
  | QAll => true
  | QOr conds => existsb (condHolds d c) conds
  end.

(** [.sort({ createdAt: -1 })]: newest first; documents with equal
    timestamps keep their stored order. *)
Fixpoint insertDesc (c : Club) (l : list Club) : list Club :=
  match l with
  | [] => [c]
  | d :: l' =>
      if (createdAt d <=? createdAt c)%Z then c :: l else d :: insertDesc c l'
  end.

Definition sortDesc (l : list Club) : list Club := fold_right insertDesc [] l.

(** [.limit(n)], [undefined] meaning no limit. *)
Definition limit (n : option nat) (l : list Club) : list Club :=
  match n with
  | Some k => firstn k l
  | None => l
  end.

(** [.select('-a -b ...')]: one excluded path, for the three paths the
    routes exclude. *)
Definition exclude (path : string) (c : Club) : Club :=
  if String.eqb path "__v" then
    mkClub (_id c) (name c) (school c) (province c) (city c) (coordinates c)
      (description c) (shortDescription c) (tags c) (logo c) (website c)
      (contact c) (sourceSubmission c) (verifiedBy c) (createdAt c)
      (updatedAt c) None
  else if String.eqb path "sourceSubmission" then
    mkClub (_id c) (name c) (school c) (province c) (city c) (coordinates c)
      (description c) (shortDescription c) (tags c) (logo c) (website c)
      (contact c) None (verifiedBy c) (createdAt c) (updatedAt c) (__v c)
  else if String.eqb path "verifiedBy" then
    mkClub (_id c) (name c) (school c) (province c) (city c) (coordinates c)
      (description c) (shortDescription c) (tags c) (logo c) (website c)
      (contact c) (sourceSubmission c) None (createdAt c) (updatedAt c)
      (__v c)
  else c.

Definition select (paths : list string) (c : Club) : Club :=
  fold_left (fun acc p => exclude p acc) paths c.

Definition hidden : list string := ["__v"; "sourceSubmission"; "verifiedBy"]%string.

(** [Club.find(q).select(..).sort({createdAt:-1}).limit(n)], awaited. *)
Definition Club_find (d : Driver) (st : Store) (q : Query)
    (paths : list string) (n : option nat) : outcome (list Club) :=
  if connected st then
    Resolved (map (select paths) (limit n (sortDesc (filter (queryHolds d q) (clubs st)))))
  else Rejected.

Definition ObjectId_eqb (a b : ObjectId) : bool :=
  if list_eq_dec N.eq_dec a b then true else false.

(** [Club.findById(id).select(..)], awaited: [null] is [None]. *)
Definition Club_findById (d : Driver) (st : Store) (id : jsstring)
    (paths : list string) : outcome (option Club) :=
  if connected st then
    match castObjectId d id with
    | Some oid =>
        Resolved (option_map (select paths)
                    (find (fun c => ObjectId_eqb (_id c) oid) (clubs st)))
    | None => Rejected
    end
  else Rejected.

(** ** [server/routes/clubs.js] *)

Record Response : Type := mkResponse {
  status : Z;
  body : value
}.

Definition msgListFailed : jsstring :=
  [33719; 21462; 31038; 22242; 21015; 34920; 22833; 36133]%N.
Definition msgNotFound : jsstring :=
  [26410; 25214; 21040; 35813; 31038; 22242]%N.
Definition msgDetailFailed : jsstring :=
  [33719; 21462; 31038; 22242; 35814; 24773; 22833; 36133]%N.

Definition failure (code : Z) (error : string) (message : jsstring) : Response :=
  mkResponse code
    (VObj [("success", VBool false);
           ("error", VStr (js error));
           ("message", VStr message)]%string).

(** Truthiness of [req.query.search], taken to be absent or a string. *)
Definition searchGiven (search : option jsstring) : bool :=
  truthy (ofOption VStr search).

(** Lines 17-30: the filter document; the [RegExp] constructor may throw. *)
Definition buildQuery (d : Driver) (search : option jsstring) : outcome Query :=
  match search with
  | Some s =>
      if truthy (VStr s) && truthy (VStr (trim s)) then
        if regexCompiles d (trim s) then
          let searchRegex := mkRegExp (trim s) in
          Resolved (QOr [(FName, searchRegex); (FSchool, searchRegex);
                         (FProvince, searchRegex); (FCity, searchRegex)])
        else Rejected
      else Resolved QAll
  | None => Resolved QAll
  end.

(** Lines 32-35. *)
Definition queryClubs (d : Driver) (st : Store) (search : option jsstring)
    : outcome (list Club) :=
  match buildQuery d search with
  | Resolved query =>
      Club_find d st query hidden (if searchGiven search then Some 20%nat else None)
  | Rejected => Rejected
  end.

(** Lines 38-55: one entry of [formattedClubs]. *)
Definition formattedClubs (club : Club) : value :=
  VObj [("id", js_or (VStr (id_virtual club)) (VStr (_id club)));
        ("name", VStr (name club));
        ("school", VStr (school club));
        ("city", js_or (ofOption VStr (city club)) (VStr []));
        ("province", VStr (province club));
        ("latitude", index (coordinates club) 1);
        ("longitude", index (coordinates club) 0);
        ("img_name", js_or (ofOption VStr (logo club)) (VStr []));
        ("short_description", js_or (ofOption VStr (shortDescription club)) (VStr []));
        ("long_description", js_or (ofOption VStr (description club)) (VStr []));
        ("tags", js_or (ofOption VStrs (tags club)) (VArr []));
        ("website", js_or (ofOption VStr (website club)) (VStr []));
        ("contact", js_or (ofOption VStrObj (contact club)) (VObj []));
        ("shortDescription", js_or (ofOption VStr (shortDescription club)) (VStr []));
        ("description", js_or (ofOption VStr (description club)) (VStr []));
        ("coordinates", VArr (map VNum (coordinates club)))]%string.

(** Lines 92-106. *)
Definition formattedClub (club : Club) : value :=
  VObj [("id", VStr (_id club));
        ("name", VStr (name club));
        ("school", VStr (school club));
        ("city", js_or (ofOption VStr (city club)) (VStr []));
        ("province", VStr (province club));
        ("latitude", index (coordinates club) 1);
        ("longitude", index (coordinates club) 0);
        ("img_name", js_or (ofOption VStr (logo club)) (VStr []));
        ("short_description", js_or (ofOption VStr (shortDescription club)) (VStr []));
        ("long_description", js_or (ofOption VStr (description club)) (VStr []));
        ("tags", js_or (ofOption VStrs (tags club)) (VArr []));
        ("website", js_or (ofOption VStr (website club)) (VStr []));
        ("contact", js_or (ofOption VStrObj (contact club)) (VObj []))]%string.

Definition listOk (docs : list Club) : Response :=
  mkResponse 200
    (VObj [("success", VBool true);
           ("data", VArr (map formattedClubs docs));
           ("total", VNum (lengthNum (map formattedClubs docs)))]%string).

Definition detailOk (club : Club) : Response :=
  mkResponse 200
    (VObj [("success", VBool true); ("data", formattedClub club)]%string).

(** [GET /api/clubs]. *)
Definition getClubs (d : Driver) (st : Store) (search : option jsstring)
    : Response :=
  match queryClubs d st search with
  | Resolved docs => listOk docs
  | Rejected => failure 500 "SERVER_ERROR" msgListFailed
  end.

(** [GET /api/clubs/:id]. *)
Definition getClubById (d : Driver) (st : Store) (id : jsstring) : Response :=
  match Club_findById d st id hidden with
  | Resolved None => failure 404 "NOT_FOUND" msgNotFound
  | Resolved (Some club) => detailOk club
  | Rejected => failure 500 "SERVER_ERROR" msgDetailFailed
  end.

(** ** The intake form script *)

Module Intake.

(** A call that returns or throws [new Error(message)]. *)
Inductive result (A : Type) : Type :=
| Ok (a : A)
| Throw (message : jsstring).
Arguments Ok {A} a.
Arguments Throw {A} message.

Definition bind {A B} (r : result A) (k : A -> result B) : result B :=
  match r with
  | Ok a => k a
  | Throw m => Throw m
  end.

Notation "x <- r ;; k" := (bind r (fun x => k))
  (at level 61, r at next level, right associativity).

Definition msgTooManyTags : jsstring :=
  [26631; 31614; 25968; 37327; 26368; 22810; 32; 49; 48; 32; 20010; 65292;
   35831; 21024; 38500; 22810; 20313; 30340; 26631; 31614]%N.
Definition msgInvalidNumber : jsstring :=
  [35831; 22635; 20889; 26377; 25928; 30340; 32463; 32428; 24230; 22352;
   26631]%N.
Definition msgLatitudeRange : jsstring :=
  [32428; 24230; 24517; 39035; 22312; 32; 45; 57; 48; 32; 21040; 32; 57; 48;
   32; 20043; 38388]%N.
Definition msgLongitudeRange : jsstring :=
  [32463; 24230; 24517; 39035; 22312; 32; 45; 49; 56; 48; 32; 21040; 32; 49;
   56; 48; 32; 20043; 38388]%N.

(** The character class of the split pattern: comma, fullwidth comma
    (U+FF0C) and line feed. *)
Definition isTagSeparator (c : char16) : bool :=
  ((c =? 44) || (c =? 65292) || (c =? 10))%N.

(** [s.split(re)] for a pattern that matches exactly one code unit. *)
Fixpoint split (sep : char16 -> bool) (s : jsstring) : list jsstring :=
  match s with
  | [] => [[]]
  | c :: s' =>
      if sep c then [] :: split sep s'
      else match split sep s' with
           | seg :: rest => (c :: seg) :: rest
           | [] => [[c]]
           end
  end.

(** [Boolean] applied to a string. *)
Definition nonEmpty (s : jsstring) : bool := truthy (VStr s).

Definition parseTags (raw : jsstring) : result (list jsstring) :=
  if negb (truthy (VStr raw)) then Ok []
  else
    let tags := filter nonEmpty (map trim (split isTagSeparator raw)) in
    if (10 <? List.length tags)%nat then Throw msgTooManyTags else Ok tags.

Definition validateCoordinates (lat lng : float) : result unit :=
  if PrimFloat.is_nan lat || PrimFloat.is_nan lng then Throw msgInvalidNumber
  else if (lat <? -90)%float || (90 <? lat)%float then Throw msgLatitudeRange
  else if (lng <? -180)%float || (180 <? lng)%float then Throw msgLongitudeRange
  else Ok tt.

(** One [.link-item] of the links container: the values of its type and url
    inputs. *)
Definition collectLinks (items : list (jsstring * jsstring))
    : list (jsstring * jsstring) :=
  filter (fun l => nonEmpty (fst l) && nonEmpty (snd l))
         (map (fun item => (trim (fst item), trim (snd item))) items).

Inductive Mode : Type := ModeNew | ModeEdit.

(** The values the submit handler reads from the page. *)
Record Form : Type := mkForm {
  currentMode : Mode;
  selectedClub : option jsstring;
  nameInput : jsstring;
  schoolInput : jsstring;
  provinceSelect : jsstring;
  cityInput : jsstring;
  latitudeInput : jsstring;
  longitudeInput : jsstring;
  shortDescriptionInput : jsstring;
  longDescriptionInput : jsstring;
  tagsInput : jsstring;
  linkItems : list (jsstring * jsstring);
  submitterEmailInput : jsstring
}.

(** The submission payload; [coordinates] is [{ latitude, longitude }]. *)
Record Payload : Type := mkPayload {
  submissionType : Mode;
  name : jsstring;
  school : jsstring;
  province : jsstring;
  city : jsstring;
  latitude : float;
  longitude : float;
  short_description : jsstring;
  long_description : jsstring;
  tags : list jsstring;
  external_links : list (jsstring * jsstring);
  submitterEmail : jsstring;
  editingClubId : option jsstring
}.

Section Submit.

(** The global [parseFloat]. *)
Variable parseFloat : jsstring -> float.

(** The [try] block of the submit handler from reading the coordinates up
    to the payload it posts (the logo upload and the request itself are
    left out). A thrown error ends in [showStatus(error.message, 'error')].
    The [form.reportValidity()] guard that precedes the block is part of
    [Page.onSubmit]. *)
Definition buildPayload (f : Form) : result Payload :=
  let latitude := parseFloat (trim (latitudeInput f)) in
  let longitude := parseFloat (trim (longitudeInput f)) in
  _ <- validateCoordinates latitude longitude ;;
  tags <- parseTags (tagsInput f) ;;
  let links := collectLinks (linkItems f) in
  Ok (mkPayload (currentMode f)
        (trim (nameInput f)) (trim (schoolInput f)) (provinceSelect f)
        (trim (cityInput f)) latitude longitude
        (trim (shortDescriptionInput f)) (trim (longDescriptionInput f))
        tags links (trim (submitterEmailInput f))
        (match currentMode f with
         | ModeEdit => selectedClub f
         | ModeNew => None
         end)).

End Submit.

End Intake.

(** ** The approval pipeline *)

Module Pipeline.

Inductive Status : Type := PENDING | APPROVED | REJECTED.

Inductive Kind : Type :=
| NEW
| EDIT (target : ObjectId).

(** Modelled from the spec: a Submission ([server/models/Submission.js] and
    the submission routes are not among the sources). It has an identity, a
    kind, a forward-only status, the submitted payload and the review
    metadata, which stays unset until a terminal transition. *)
Record Submission : Type := mkSubmission {
  submissionId : ObjectId;
  kind : Kind;
  status : Status;
  payload : Intake.Payload;
  reviewedBy : option jsstring;
  reviewedAt : option Z;
  rejectionReason : option jsstring
}.

(** Modelled from the spec: the two collections of the authoritative store
    with the snapshot file and its backup (the store adapter and
    [server/scripts/syncToJson.js] are not among the sources). Published
    Records are the [Club] documents. *)
Record State : Type := mkState {
  submissions : list Submission;
  records : list Club;
  snapshot : option (list Byte.byte);
  backup : option (list Byte.byte)
}.

Inductive Error : Type :=
| VALIDATION
| NOT_FOUND
| INVALID_STATUS (actual : Status).

Inductive reply : Type :=
| Done (recordId : option ObjectId)
| Fail (e : Error).

Definition getSubmission (st : State) (id : ObjectId) : option Submission :=
  find (fun s => ObjectId_eqb (submissionId s) id) (submissions st).

Definition isPending (s : Status) : bool :=
  match s with PENDING => true | _ => false end.

(** Modelled from the spec: the Published Record built from a submission
    payload: every payload field as submitted, both description strings
    taken from their own payload field, coordinates stored as
    (longitude, latitude), plus the back-reference and the approver. *)
Definition recordOf (rid : ObjectId) (s : Submission) (actor : jsstring)
    (created now : Z) : Club :=
  let p := payload s in
  mkClub rid (Intake.name p) (Intake.school p) (Intake.province p)
    (Some (Intake.city p)) [Intake.longitude p; Intake.latitude p]
    (Some (Intake.long_description p)) (Some (Intake.short_description p))
    (Some (Intake.tags p)) None None None
    (Some (submissionId s)) (Some actor) created now (Some 0%Z).

Fixpoint updateRecord (rid : ObjectId) (f : Club -> Club) (l : list Club)
    : option (list Club) :=
  match l with
  | [] => None
  | c :: l' =>
      if ObjectId_eqb (_id c) rid then Some (f c :: l')
      else option_map (cons c) (updateRecord rid f l')
  end.

Definition setStatus (id : ObjectId) (f : Submission -> Submission)
    (l : list Submission) : list Submission :=
  map (fun s => if ObjectId_eqb (submissionId s) id then f s else s) l.

Definition review (to : Status) (actor : jsstring) (now : Z)
    (reason : option jsstring) (s : Submission) : Submission :=
  mkSubmission (submissionId s) (kind s) to (payload s)
    (Some actor) (Some now) reason.

(** Modelled from the spec: one entry of the snapshot: renamed fields, the
    coordinate pair in (longitude, latitude) order, both descriptions passed
    through (the empty string when unset), the id as a string. *)
Definition snapshotEntry (c : Club) : value :=
  VObj [("id", VStr (_id c));
        ("name", VStr (name c));
        ("school", VStr (school c));
        ("city", js_or (ofOption VStr (city c)) (VStr []));
        ("province", VStr (province c));
        ("coordinates", VArr [index (coordinates c) 0; index (coordinates c) 1]);
        ("img_name", js_or (ofOption VStr (logo c)) (VStr []));
        ("short_description", js_or (ofOption VStr (shortDescription c)) (VStr []));
        ("long_description", js_or (ofOption VStr (description c)) (VStr []));
        ("tags", js_or (ofOption VStrs (tags c)) (VArr []));
        ("website", js_or (ofOption VStr (website c)) (VStr []));
        ("contact", js_or (ofOption VStrObj (contact c)) (VObj []))]%string.

Section Synchronizer.

(** The encoder of the snapshot file (the JSON writer). *)
Variable serialize : value -> list Byte.byte.

(** Modelled from the spec: [rebuild()] reads every Published Record,
    projects each one, copies the current snapshot to the backup path and
    replaces the snapshot with the new content. *)
Definition rebuild (st : State) : State :=
  mkState (submissions st) (records st)
    (Some (serialize (VArr (map snapshotEntry (records st)))))
    (match snapshot st with
     | Some old => Some old
     | None => backup st
     end).

(** Modelled from the spec: [approve(id, actor)]: claim the submission
    (only PENDING is transitionable, otherwise INVALID_STATUS with the
    actual status), create the Published Record or update the referenced
    one in place, record the review metadata, then run the synchronizer. *)
Definition approve (fresh : ObjectId) (now : Z) (id : ObjectId)
    (actor : jsstring) (st : State) : reply * State :=
  match getSubmission st id with
  | None => (Fail NOT_FOUND, st)
  | Some s =>
      if isPending (status s) then
        let published :=
          match kind s with
          | NEW => Some (fresh, records st ++ [recordOf fresh s actor now now])
          | EDIT target =>
              option_map (pair target)
                (updateRecord target
                   (fun old => recordOf target s actor (createdAt old) now)
                   (records st))
          end in
        match published with
        | Some (rid, recs) =>
            (Done (Some rid),
             rebuild (mkState
                        (setStatus id (review APPROVED actor now None) (submissions st))
                        recs (snapshot st) (backup st)))
        | None => (Fail NOT_FOUND, st)
        end
      else (Fail (INVALID_STATUS (status s)), st)
  end.

(** Modelled from the spec: [reject(id, actor, reason)]: a non-empty reason
    is required before anything else; same claim discipline; no Published
    Record is touched. *)
Definition reject (now : Z) (id : ObjectId) (actor reason : jsstring)
    (st : State) : reply * State :=
  match reason with
  | [] => (Fail VALIDATION, st)
  | _ =>
      match getSubmission st id with
      | None => (Fail NOT_FOUND, st)
      | Some s =>
          if isPending (status s) then
            (Done None,
             mkState (setStatus id (review REJECTED actor now (Some reason))
                        (submissions st))
               (records st) (snapshot st) (backup st))
          else (Fail (INVALID_STATUS (status s)), st)
      end
  end.

End Synchronizer.

End Pipeline.

(** ** Observations on responses and reference semantics *)

(** The entries of a list response ([data] of a failure is [undefined]). *)
Definition listed (r : Response) : list value :=
  match get "data" (body r) with
  | VArr xs => xs
  | _ => []
  end.

(** The [data] object of a detail response. *)
Definition detailed (r : Response) : option value :=
  match get "data" (body r) with
  | VObj props => Some (VObj props)
  | _ => None
  end.

(** The [error] code of a response, if it carries one. *)
Definition errorCode (r : Response) : option jsstring :=
  match get "error" (body r) with
  | VStr s => Some s
  | _ => None
  end.

Definition orEmpty (o : option jsstring) : jsstring :=
  match o with
  | Some s => s
  | None => []
  end.

(** Case-insensitive partial match, for patterns and subjects whose letters
    with case are the ASCII ones: the pattern occurs somewhere in the
    subject up to the case of A-Z. *)
Definition asciiLower (c : char16) : char16 :=
  if ((65 <=? c) && (c <=? 90))%N then (c + 32)%N else c.

Fixpoint startsWithCI (pat s : jsstring) : bool :=
  match pat, s with
  | [], _ => true
  | _ :: _, [] => false
  | p :: pat', c :: s' =>
      (asciiLower p =? asciiLower c)%N && startsWithCI pat' s'
  end.

Fixpoint includesCI (pat s : jsstring) : bool :=
  startsWithCI pat s ||
  match s with
  | [] => false
  | _ :: s' => includesCI pat s'
  end.

(** A club matches a search string when one of the four searched fields
    contains it. *)
Definition partialMatch (pat : jsstring) (c : Club) : bool :=
  includesCI pat (name c) || includesCI pat (school c)
  || includesCI pat (province c)
  || match city c with Some s => includesCI pat s | None => false end.

(** The driver reads pattern [pat] as the literal text [pat]: what every
    regular-expression dialect does with a pattern free of metacharacters. *)
Definition literalPattern (d : Driver) (pat : jsstring) : Prop :=
  regexCompiles d pat = true /\
  forall s, regexMatch d pat s = includesCI pat s.

Definition isMetaChar (c : char16) : bool :=
  existsb (N.eqb c) (js "\^$.|?*+()[]{}").

Definition isHexDigit (c : char16) : bool :=
  ((48 <=? c) && (c <=? 57) || (65 <=? c) && (c <=? 70)
   || (97 <=? c) && (c <=? 102))%N.

(** A driver for worked examples: patterns free of metacharacters are
    literal text (the examples use no other pattern), and exactly the
    strings of 24 hexadecimal digits cast to an ObjectId. *)
Definition exampleDriver : Driver :=
  mkDriver (fun pat => forallb (fun c => negb (isMetaChar c)) pat)
           includesCI
           (fun s => if (List.length s =? 24)%nat && forallb isHexDigit s
                     then Some (map asciiLower s) else None).

(** The club of the end-to-end scenario, stored as [[116.3267, 39.9995]]. *)
Definition tsinghua : Club :=
  mkClub (js "673257b8c5e4f2a1d8b9e012")
    [28216; 25103; 31038]%N [28165; 21326; 22823; 23398]%N
    [21271; 20140; 24066]%N None [116.3267; 39.9995]%float
    (Some (js "B B B")) (Some (js "A")) (Some []) None None None
    (Some (js "673257b8c5e4f2a1d8b9e011")) (Some (js "admin1"))
    1762819200000 1762819200000 (Some 0%Z).

(** A club named [nm] with no optional field set. *)
Definition plainClub (oid nm : jsstring) (t : Z) : Club :=
  mkClub oid nm (js "s") (js "p") None [0; 0]%float None None None None None
    None None None t t None.

(** What "differ only in the values of sourceSubmission and verifiedBy"
    compares: the document with those two fields blanked. *)
Definition public (c : Club) : Club :=
  mkClub (_id c) (name c) (school c) (province c) (city c) (coordinates c)
    (description c) (shortDescription c) (tags c) (logo c) (website c)
    (contact c) None None (createdAt c) (updatedAt c) (__v c).

Definition notFound : Response := failure 404 "NOT_FOUND" msgNotFound.

Definition detailFailed : Response := failure 500 "SERVER_ERROR" msgDetailFailed.

Definition listFailed : Response := failure 500 "SERVER_ERROR" msgListFailed.

Definition internalFields : list string :=
  ["__v"; "sourceSubmission"; "verifiedBy"]%string.

(** No property of the object is named after an internal field. *)
Definition omitsInternal (o : value) : Prop :=
  forall k, In k internalFields -> ~ In k (keys o).

(** The scenario's club as another admin would have approved it, from
    another submission. *)
Definition tsinghua' : Club :=
  mkClub (_id tsinghua) (name tsinghua) (school tsinghua) (province tsinghua)
    (city tsinghua) (coordinates tsinghua) (description tsinghua)
    (shortDescription tsinghua) (tags tsinghua) (logo tsinghua)
    (website tsinghua) (contact tsinghua)
    (Some (js "673257b8c5e4f2a1d8b9e0ff")) (Some (js "admin2"))
    (createdAt tsinghua) (updatedAt tsinghua) (__v tsinghua).

Definition hexDigit (n : nat) : char16 :=
  nth n (js "0123456789abcdef") 48%N.

(** The ObjectId string ending in the two hexadecimal digits of [i]. *)
Definition oidOf (i : nat) : ObjectId :=
  js "0000000000000000000000" ++ [hexDigit (i / 16); hexDigit (i mod 16)].

(** Twenty-one clubs, all named "a". *)
Definition crowd : list Club :=
  map (fun i => plainClub (oidOf i) (js "a") (Z.of_nat i)) (seq 0 21).

(** [x] is a number (not NaN) with [lo <= x <= hi] in the IEEE order. *)
Definition inRange (lo hi x : float) : bool :=
  ((lo <=? x) && (x <=? hi))%float.

(** The string does not begin with white space. *)
Definition clean (s : jsstring) : Prop :=
  match s with
  | [] => True
  | c :: _ => isWhiteSpace c = false
  end.

(** Neither end of the string is white space. *)
Definition trimmed (s : jsstring) : Prop := clean s /\ clean (rev s).

(** Segments put back together around the separators that split them. *)
Fixpoint rejoin (segs : list jsstring) (seps : list char16) : jsstring :=
  match segs, seps with
  | seg :: segs', c :: seps' => seg ++ c :: rejoin segs' seps'
  | seg :: _, [] => seg
  | [], _ => []
  end.

(** The candidate tags of an input: its segments between separators,
    trimmed, the empty ones dropped. *)
Definition candidateTags (raw : jsstring) : list jsstring :=
  filter Intake.nonEmpty (map trim (Intake.split Intake.isTagSeparator raw)).

(** The submission of the end-to-end scenario, pending. *)
Definition scenarioSubmission : Pipeline.Submission :=
  Pipeline.mkSubmission (js "673257b8c5e4f2a1d8b9e011") Pipeline.NEW
    Pipeline.PENDING
    (Intake.mkPayload Intake.ModeNew
       [28216; 25103; 31038]%N [28165; 21326; 22823; 23398]%N
       [21271; 20140; 24066]%N [] 39.9995 116.3267 (js "A") (js "B B B")
       [] [] (js "submitter@example.com") None)
    None None None.

Definition scenarioState : Pipeline.State :=
  Pipeline.mkState [scenarioSubmission] [] None None.

(** An encoder for worked examples: one byte per snapshot entry. *)
Definition countingEncoder (v : value) : list Byte.byte :=
  match v with
  | VArr xs => map (fun _ => Byte.x2c) xs
  | _ => []
  end.

(** The scenario's state after "admin1" has approved the submission. *)
Definition approvedState : Pipeline.State :=
  snd (Pipeline.approve countingEncoder (js "673257b8c5e4f2a1d8b9e012")
         1762819200000 (js "673257b8c5e4f2a1d8b9e011") (js "admin1")
         scenarioState).

(** ** The form page beyond the payload *)

Module Page.

(** [a.join(sep)] on an array of strings. *)
Fixpoint join (sep : jsstring) (l : list jsstring) : jsstring :=
  match l with
  | [] => []
  | x :: rest =>
      match rest with
      | [] => x
      | _ :: _ => x ++ sep ++ join sep rest
      end
  end.

(** The text [selectClub] composes for the tags input:
    [club.tags ? club.tags.join(', ') : '']. *)
Definition tagsText (tags : option (list jsstring)) : jsstring :=
  match tags with
  | Some ts => join (js ", ") ts
  | None => []
  end.

(** One [.link-item] of the links container: the values of its two inputs
    and whether its remove button is displayed. *)
Record LinkRow : Type := mkLinkRow {
  typeValue : jsstring;
  urlValue : jsstring;
  removeShown : bool
}.

(** What [collectLinks] reads from the container. *)
Definition rowValues (rows : list LinkRow) : list (jsstring * jsstring) :=
  map (fun r => (typeValue r, urlValue r)) rows.

Definition updateRemoveButtonVisibility (rows : list LinkRow) : list LinkRow :=
  map (fun r => mkLinkRow (typeValue r) (urlValue r)
                  (1 <? List.length rows)%nat) rows.

(** A row with empty inputs is appended (its button's display is set by the
    update that follows). *)
Definition addNewLinkItem (rows : list LinkRow) : list LinkRow :=
  updateRemoveButtonVisibility (rows ++ [mkLinkRow [] [] false]).

Fixpoint removeAt (i : nat) (rows : list LinkRow) : list LinkRow :=
  match rows, i with
  | [], _ => []
  | _ :: rest, O => rest
  | r :: rest, S j => r :: removeAt j rest
  end.

(** The click listener [addNewLinkItem] attaches to the remove button of
    the row it creates, for the row at position [i]:
    [linkItem.remove(); updateRemoveButtonVisibility()]. *)
Definition removeLinkItem (i : nat) (rows : list LinkRow) : list LinkRow :=
  updateRemoveButtonVisibility (removeAt i rows).

(** The links container as [resetForm] leaves it. *)
Definition resetLinks : list LinkRow :=
  updateRemoveButtonVisibility [mkLinkRow [] [] false].

(** *** Club search in edit mode *)

(** [s.startsWith(pat)] and [s.includes(pat)]. *)
Fixpoint startsWith (pat s : jsstring) : bool :=
  match pat, s with
  | [], _ => true
  | _ :: _, [] => false
  | p :: pat', c :: s' => (p =? c)%N && startsWith pat' s'
  end.

Fixpoint includes (pat s : jsstring) : bool :=
  startsWith pat s ||
  match s with
  | [] => false
  | _ :: s' => includes pat s'
  end.

(** [a || b] on conditions that may throw: [b] is evaluated only when [a]
    is false. *)
Definition orElse (a b : outcome bool) : outcome bool :=
  match a with
  | Resolved true => Resolved true
  | Resolved false => b
  | Rejected => Rejected
  end.

(** What the search box shows. *)
Inductive Display : Type :=
| Cleared
| Results (clubs : list value)
| SearchFailed.

(** The answer to [fetch('/data/clubs.json')]: the request fails, the
    response is not ok, or its body parses (or fails to parse) as JSON. *)
Inductive Fetched : Type :=
| FetchFailed
| NotOk
| Body (json : outcome value).

Section ClubSearch.

(** [String.prototype.toLowerCase]. *)
Variable toLowerCase : jsstring -> jsstring.

(** [v.toLowerCase().includes(query)]: a TypeError unless [v] is a
    string. *)
Definition lowerIncludes (query : jsstring) (v : value) : outcome bool :=
  match v with
  | VStr s => Resolved (includes query (toLowerCase s))
  | _ => Rejected
  end.

(** [tags.some(tag => tag.toLowerCase().includes(query))]. *)
Fixpoint someTag (query : jsstring) (tags : list value) : outcome bool :=
  match tags with
  | [] => Resolved false
  | tag :: rest => orElse (lowerIncludes query tag) (someTag query rest)
  end.

(** [club.tags && club.tags.some(...)]: only arrays have [some]. *)
Definition tagsMatch (query : jsstring) (tags : value) : outcome bool :=
  if truthy tags then
    match tags with
    | VArr xs => someTag query xs
    | _ => Rejected
    end
  else Resolved false.

(** The callback of [window.clubsData.filter]. *)
Definition matchesQuery (query : jsstring) (club : value) : outcome bool :=
  orElse (lowerIncludes query (get "name" club))
    (orElse (lowerIncludes query (get "school" club))
       (orElse (lowerIncludes query (get "city" club))
          (tagsMatch query (get "tags" club)))).

Fixpoint filterClubs (query : jsstring) (clubs : list value)
    : outcome (list value) :=
  match clubs with
  | [] => Resolved []
  | club :: rest =>
      match matchesQuery query club with
      | Rejected => Rejected
      | Resolved keep =>
          match filterClubs query rest with
          | Rejected => Rejected
          | Resolved found => Resolved (if keep then club :: found else found)
          end
      end
  end.

(** The [input] listener of the club search box: from [window.clubsData],
    the answer a fetch would get and the text typed, the new
    [window.clubsData] and what is shown. *)
Definition onSearchInput (clubsData : value) (fetched : Fetched)
    (input : jsstring) : value * Display :=
  let query := trim (toLowerCase input) in
  if (List.length query <? 2)%nat then (clubsData, Cleared)
  else
    let loaded :=
      if negb (truthy clubsData) then
        match fetched with
        | Body (Resolved data) => Resolved data
        | _ => Rejected
        end
      else Resolved clubsData in
    match loaded with
    | Rejected => (clubsData, SearchFailed)
    | Resolved data =>
        match data with
        | VArr clubs =>
            match filterClubs query clubs with
            | Resolved found => (data, Results (firstn 10 found))
            | Rejected => (data, SearchFailed)
            end
        | _ => (data, SearchFailed)
        end
    end.

End ClubSearch.

(** *** The submit listener *)

Definition msgCheckRequired : jsstring :=
  [35831; 26816; 26597; 24517; 22635; 39033; 26159; 21542; 22635; 20889;
   23436; 25972]%N.
Definition msgSubmitFailed : jsstring :=
  [25552; 20132; 22833; 36133; 65292; 35831; 31245; 21518; 20877; 35797]%N.

(** How far the listener gets before the logo upload: it shows a status
    message as an error, or it has built the payload. *)
Inductive SubmitOutcome : Type :=
| StatusError (message : jsstring)
| Built (payload : Intake.Payload).

Section SubmitListener.

Variable parseFloat : jsstring -> float.

(** The listener of the form's [submit] event up to the payload. [valid]
    is what [form.reportValidity()] returns: when it is false the listener
    shows its message and returns before anything is read. Otherwise the
    [try] block runs, and an error thrown there is shown by the [catch]
    clause as [error.message || msgSubmitFailed]. *)
Definition onSubmit (valid : bool) (f : Intake.Form) : SubmitOutcome :=
  if negb valid then StatusError msgCheckRequired
  else
    match Intake.buildPayload parseFloat f with
    | Intake.Ok payload => Built payload
    | Intake.Throw message =>
        StatusError (match message with
                     | [] => msgSubmitFailed
                     | _ :: _ => message
                     end)
    end.

End SubmitListener.

End Page.

(** Every remove button is displayed exactly when the container holds more
    than one row. *)
Definition buttonsConsistent (rows : list Page.LinkRow) : Prop :=
  Forall (fun r => Page.removeShown r = (1 <? List.length rows)%nat) rows.

(** A link as [collectLinks] keeps it: both parts non-empty, without white
    space at either end. *)
Definition cleanLink (l : jsstring * jsstring) : Prop :=
  fst l <> [] /\ snd l <> [] /\ trimmed (fst l) /\ trimmed (snd l).

(** A tag as [parseTags] returns it: non-empty, without white space at
    either end, without a separator. *)
Definition cleanTag (tag : jsstring) : Prop :=
  tag <> [] /\ trimmed tag /\
  Forall (fun c => Intake.isTagSeparator c = false) tag.

(** The filter callback returned a true value for the club. *)
Definition keeps (toLowerCase : jsstring -> jsstring) (query : jsstring)
    (club : value) : bool :=
  match Page.matchesQuery toLowerCase query club with
  | Resolved true => true
  | _ => false
  end.

(** The form of the end-to-end scenario, as typed. *)
Definition scenarioForm : Intake.Form :=
  Intake.mkForm Intake.ModeNew (Some (js "673257b8c5e4f2a1d8b9e012"))
    ([32; 28216; 25103; 31038; 32]%N) [28165; 21326; 22823; 23398]%N
    [21271; 20140; 24066]%N [] (js " 39.9995") (js "116.3267 ")
    (js "A ") (js "B B B") (js "Unity, game jam ,")
    [(js " GitHub ", js "https://github.com/x"); (js "QQ", js "  ")]
    (js " submitter@example.com").

(** A number parser for worked examples: it knows the scenario's two
    coordinate strings. *)
Definition scenarioParseFloat (s : jsstring) : float :=
  if list_eq_dec N.eq_dec s (js "39.9995") then 39.9995%float
  else if list_eq_dec N.eq_dec s (js "116.3267") then 116.3267%float
  else PrimFloat.nan.

(** A lower-casing for worked examples: the ASCII letters. *)
Definition asciiToLowerCase (s : jsstring) : jsstring := map asciiLower s.

(** Two entries of a clubs file, and one that lacks a name. *)
Definition entryA : value :=
  VObj [("name", VStr (js "Pixel Club")); ("school", VStr (js "THU"));
        ("city", VStr (js "Beijing")); ("tags", VArr [VStr (js "Unity")])]%string.

Definition entryB : value :=
  VObj [("name", VStr (js "Game Lab")); ("school", VStr (js "PKU"));
        ("city", VStr (js "Beijing"))]%string.

Definition entryNameless : value :=
  VObj [("school", VStr (js "PKU")); ("city", VStr (js "Beijing"))]%string.

(** * Properties *)

(** ** Lists: sorting and limiting *)

Lemma insertDesc_perm (c : Club) (l : list Club) :
  Permutation (insertDesc c l) (c :: l).
Proof.
  induction l as [|d l IH]; simpl.
  - apply Permutation_refl.
  - destruct (createdAt d <=? createdAt c)%Z.
    + apply Permutation_refl.
    + eapply perm_trans; [apply perm_skip, IH | apply perm_swap].
Qed.

Lemma sortDesc_perm (l : list Club) : Permutation (sortDesc l) l.
Proof.
  induction l as [|c l IH]; simpl.
  - constructor.
  - eapply perm_trans; [apply insertDesc_perm | now apply perm_skip].
Qed.

Lemma sortDesc_In (c : Club) (l : list Club) : In c (sortDesc l) <-> In c l.
Proof.
  split; apply Permutation_in;
    [apply sortDesc_perm | apply Permutation_sym, sortDesc_perm].
Qed.

Lemma insertDesc_map (f : Club -> Club) (c : Club) (l : list Club) :
  (forall x, createdAt (f x) = createdAt x) ->
  insertDesc (f c) (map f l) = map f (insertDesc c l).
Proof.
  intros Hf. induction l as [|d l IH]; simpl; [reflexivity|].
  rewrite !Hf. destruct (createdAt d <=? createdAt c)%Z; simpl.
  - reflexivity.
  - now rewrite IH.
Qed.

Lemma sortDesc_map (f : Club -> Club) (l : list Club) :
  (forall x, createdAt (f x) = createdAt x) ->
  sortDesc (map f l) = map f (sortDesc l).
Proof.
  intros Hf. induction l as [|c l IH]; simpl; [reflexivity|].
  rewrite IH. now apply insertDesc_map.
Qed.

Lemma limit_In (n : option nat) (c : Club) (l : list Club) :
  In c (limit n l) -> In c l.
Proof.
  destruct n as [k|]; simpl; [|easy].
  intros H. rewrite <- (firstn_skipn k l). apply in_or_app. now left.
Qed.

Lemma limit_map (f : Club -> Club) (n : option nat) (l : list Club) :
  limit n (map f l) = map f (limit n l).
Proof. destruct n; simpl; [apply firstn_map | reflexivity]. Qed.

(** ** What the routes serve *)

Lemma select_hidden (c : Club) :
  select hidden c =
  mkClub (_id c) (name c) (school c) (province c) (city c) (coordinates c)
    (description c) (shortDescription c) (tags c) (logo c) (website c)
    (contact c) None None (createdAt c) (updatedAt c) None.
Proof. reflexivity. Qed.

Lemma Club_find_In (d : Driver) (st : Store) (q : Query) (n : option nat)
    (docs : list Club) (doc : Club) :
  Club_find d st q hidden n = Resolved docs -> In doc docs ->
  exists c, In c (clubs st) /\ queryHolds d q c = true /\ doc = select hidden c.
Proof.
  unfold Club_find. destruct (connected st); [|discriminate].
  intros [= <-] Hin. apply in_map_iff in Hin as (c & <- & Hc).
  apply limit_In, sortDesc_In, filter_In in Hc as [Hc Hq].
  now exists c.
Qed.

(** Every entry of a list response is the list projection of a stored club
    read through [select]. *)
Lemma listed_inv (d : Driver) (st : Store) (search : option jsstring)
    (item : value) :
  In item (listed (getClubs d st search)) ->
  exists c, In c (clubs st) /\ item = formattedClubs (select hidden c).
Proof.
  unfold getClubs, queryClubs.
  destruct (buildQuery d search) as [q|]; [|simpl; tauto].
  destruct (Club_find d st q hidden _) as [docs|] eqn:E; [|simpl; tauto].
  cbn. intros Hin. apply in_map_iff in Hin as (doc & <- & Hdoc).
  destruct (Club_find_In _ _ _ _ _ _ E Hdoc) as (c & Hc & _ & ->).
  now exists c.
Qed.

(** The [data] of a detail response is the detail projection of the stored
    club the id casts to. *)
Lemma detailed_inv (d : Driver) (st : Store) (id : jsstring) (item : value) :
  detailed (getClubById d st id) = Some item ->
  exists c, In c (clubs st) /\ castObjectId d id = Some (_id c) /\
            item = formattedClub (select hidden c).
Proof.
  unfold getClubById, Club_findById.
  destruct (connected st); [|discriminate].
  destruct (castObjectId d id) as [oid|]; [|discriminate].
  destruct (find _ (clubs st)) as [c|] eqn:E; [|discriminate].
  cbn. intros [= <-]. apply find_some in E as [Hc Hid].
  exists c. split; [assumption|]. split; [|reflexivity].
  unfold ObjectId_eqb in Hid.
  destruct (list_eq_dec N.eq_dec (_id c) oid); [now subst | discriminate].
Qed.

Lemma formattedClubs_coordinates (c : Club) (lng lat : float) :
  coordinates c = [lng; lat] ->
  get "latitude" (formattedClubs (select hidden c)) = VNum lat /\
  get "longitude" (formattedClubs (select hidden c)) = VNum lng.
Proof. intros H. cbn. rewrite H. split; reflexivity. Qed.

Lemma formattedClub_coordinates (c : Club) (lng lat : float) :
  coordinates c = [lng; lat] ->
  get "latitude" (formattedClub (select hidden c)) = VNum lat /\
  get "longitude" (formattedClub (select hidden c)) = VNum lng.
Proof. intros H. cbn. rewrite H. split; reflexivity. Qed.

Lemma listed_listOk (docs : list Club) :
  listed (listOk docs) = map formattedClubs docs.
Proof. reflexivity. Qed.

Lemma filter_all (d : Driver) (l : list Club) :
  filter (queryHolds d QAll) l = l.
Proof. induction l as [|c l IH]; simpl; [reflexivity | now rewrite IH]. Qed.

(** Without a search parameter the list route serves every stored club,
    newest first. *)
Lemma getClubs_all (d : Driver) (st : Store) :
  connected st = true ->
  getClubs d st None = listOk (map (select hidden) (sortDesc (clubs st))).
Proof.
  intros Hc. unfold getClubs, queryClubs, Club_find. simpl.
  now rewrite Hc, filter_all.
Qed.

(** C1. Both read routes serve, for a club stored with coordinates
    [[longitude, latitude]], [latitude] equal to [coordinates[1]] and
    [longitude] equal to [coordinates[0]]: every entry of a list response and
    the data of every detail response is the projection of a stored club with
    exactly these two values. The club stored with [[116.3267, 39.9995]] is
    served with latitude 39.9995 and longitude 116.3267 by both routes. *)
Theorem coordinates_served (d : Driver) (st : Store) :
  (forall search item,
      In item (listed (getClubs d st search)) ->
      exists c, In c (clubs st) /\ item = formattedClubs (select hidden c) /\
        forall lng lat, coordinates c = [lng; lat] ->
          get "latitude" item = VNum lat /\ get "longitude" item = VNum lng) /\
  (forall id item,
      detailed (getClubById d st id) = Some item ->
      exists c, In c (clubs st) /\ item = formattedClub (select hidden c) /\
        forall lng lat, coordinates c = [lng; lat] ->
          get "latitude" item = VNum lat /\ get "longitude" item = VNum lng) /\
  (forall clubs0 clubs1,
      exists item,
        In item (listed (getClubs d (mkStore true (clubs0 ++ tsinghua :: clubs1)) None)) /\
        get "latitude" item = VNum 39.9995 /\ get "longitude" item = VNum 116.3267) /\
  (let r := getClubById exampleDriver (mkStore true [tsinghua]) (_id tsinghua) in
   status r = 200%Z /\
   get "latitude" (get "data" (body r)) = VNum 39.9995 /\
   get "longitude" (get "data" (body r)) = VNum 116.3267).
Proof.
  split; [|split; [|split]].
  - intros search item Hin.
    destruct (listed_inv _ _ _ _ Hin) as (c & Hc & ->).
    exists c. split; [assumption|]. split; [reflexivity|].
    intros lng lat. apply formattedClubs_coordinates.
  - intros id item Hd.
    destruct (detailed_inv _ _ _ _ Hd) as (c & Hc & _ & ->).
    exists c. split; [assumption|]. split; [reflexivity|].
    intros lng lat. apply formattedClub_coordinates.
  - intros clubs0 clubs1. exists (formattedClubs (select hidden tsinghua)).
    split; [|split; reflexivity].
    rewrite getClubs_all, listed_listOk by reflexivity.
    apply in_map, in_map, sortDesc_In. simpl.
    apply in_or_app. right. now left.
  - vm_compute. repeat split.
Qed.

Lemma js_or_string (o : option jsstring) :
  js_or (ofOption VStr o) (VStr []) = VStr (orEmpty o).
Proof. destruct o as [[|c s]|]; reflexivity. Qed.

Lemma formattedClubs_descriptions (c : Club) :
  get "short_description" (formattedClubs (select hidden c))
    = VStr (orEmpty (shortDescription c)) /\
  get "long_description" (formattedClubs (select hidden c))
    = VStr (orEmpty (description c)).
Proof. cbn -[js_or]. now rewrite !js_or_string. Qed.

Lemma formattedClub_descriptions (c : Club) :
  get "short_description" (formattedClub (select hidden c))
    = VStr (orEmpty (shortDescription c)) /\
  get "long_description" (formattedClub (select hidden c))
    = VStr (orEmpty (description c)).
Proof. cbn -[js_or]. now rewrite !js_or_string. Qed.

(** C2. Every entry of a list response and the data of every detail
    response is the projection of a stored club whose [short_description] is
    that club's [shortDescription] and whose [long_description] is its
    [description], each the stored string itself, or the empty string when
    the stored field is absent; both properties are present in the served
    object. The short description served does not depend on the stored long
    description, nor the long one on the short one. *)
Theorem descriptions_served (d : Driver) (st : Store) :
  (forall search item,
      In item (listed (getClubs d st search)) ->
      exists c, In c (clubs st) /\ item = formattedClubs (select hidden c) /\
        get "short_description" item = VStr (orEmpty (shortDescription c)) /\
        get "long_description" item = VStr (orEmpty (description c)) /\
        In "short_description"%string (keys item) /\
        In "long_description"%string (keys item)) /\
  (forall id item,
      detailed (getClubById d st id) = Some item ->
      exists c, In c (clubs st) /\ item = formattedClub (select hidden c) /\
        get "short_description" item = VStr (orEmpty (shortDescription c)) /\
        get "long_description" item = VStr (orEmpty (description c)) /\
        In "short_description"%string (keys item) /\
        In "long_description"%string (keys item)) /\
  (forall c c',
      (shortDescription c = shortDescription c' ->
       get "short_description" (formattedClubs (select hidden c))
         = get "short_description" (formattedClubs (select hidden c')) /\
       get "short_description" (formattedClub (select hidden c))
         = get "short_description" (formattedClub (select hidden c'))) /\
      (description c = description c' ->
       get "long_description" (formattedClubs (select hidden c))
         = get "long_description" (formattedClubs (select hidden c')) /\
       get "long_description" (formattedClub (select hidden c))
         = get "long_description" (formattedClub (select hidden c')))).
Proof.
  split; [|split].
  - intros search item Hin.
    destruct (listed_inv _ _ _ _ Hin) as (c & Hc & ->).
    exists c. split; [assumption|]. split; [reflexivity|].
    destruct (formattedClubs_descriptions c) as [Hs Hl].
    split; [exact Hs|]. split; [exact Hl|].
    split; cbn; tauto.
  - intros id item Hd.
    destruct (detailed_inv _ _ _ _ Hd) as (c & Hc & _ & ->).
    exists c. split; [assumption|]. split; [reflexivity|].
    destruct (formattedClub_descriptions c) as [Hs Hl].
    split; [exact Hs|]. split; [exact Hl|].
    split; cbn; tauto.
  - intros c c'.
    destruct (formattedClubs_descriptions c) as [Hs Hl].
    destruct (formattedClubs_descriptions c') as [Hs' Hl'].
    destruct (formattedClub_descriptions c) as [Ks Kl].
    destruct (formattedClub_descriptions c') as [Ks' Kl'].
    split; intros E.
    + rewrite Hs, Hs', Ks, Ks', E. now split.
    + rewrite Hl, Hl', Kl, Kl', E. now split.
Qed.

(** ** Lookup by id *)

Lemma ObjectId_eqb_eq (a b : ObjectId) : ObjectId_eqb a b = true <-> a = b.
Proof.
  unfold ObjectId_eqb. destruct (list_eq_dec N.eq_dec a b); split;
    congruence.
Qed.

Lemma find_id_none (oid : ObjectId) (l : list Club) :
  find (fun c => ObjectId_eqb (_id c) oid) l = None <->
  forall c, In c l -> _id c <> oid.
Proof.
  split.
  - intros H c Hc E. apply (find_none _ _ H) in Hc.
    apply ObjectId_eqb_eq in E. congruence.
  - intros H. induction l as [|c l IH]; simpl; [reflexivity|].
    destruct (ObjectId_eqb (_id c) oid) eqn:E.
    + apply ObjectId_eqb_eq in E. exfalso. apply (H c); [now left | exact E].
    + apply IH. intros c' Hc'. apply H. now right.
Qed.

(** C5, as the code has it. For an id that casts to an ObjectId: on a
    reachable store the detail route answers NOT_FOUND exactly when no
    stored club has that ObjectId, and when a club has it, it answers 200
    with [success] true and the detail projection of such a club; on an
    unreachable store it answers SERVER_ERROR. *)
Theorem getClubById_found_or_missing (d : Driver) (st : Store)
    (id : jsstring) (oid : ObjectId) :
  castObjectId d id = Some oid ->
  (connected st = true ->
   (getClubById d st id = notFound <->
      forall c, In c (clubs st) -> _id c <> oid) /\
   ((exists c, In c (clubs st) /\ _id c = oid) ->
    exists c, In c (clubs st) /\ _id c = oid /\
              getClubById d st id = detailOk (select hidden c) /\
              status (getClubById d st id) = 200%Z /\
              get "success" (body (getClubById d st id)) = VBool true)) /\
  (connected st = false -> getClubById d st id = detailFailed).
Proof.
  intros Hcast. unfold getClubById, Club_findById. rewrite Hcast.
  split; intros Hconn; rewrite Hconn; [|reflexivity].
  destruct (find _ (clubs st)) as [c|] eqn:E; simpl.
  - apply find_some in E as [Hc Hid]. apply ObjectId_eqb_eq in Hid.
    split.
    + split; [discriminate|]. intros H. now elim (H c Hc).
    + intros _. exists c. now repeat split.
  - split.
    + split; [|reflexivity]. intros _. now apply find_id_none.
    + intros (c & Hc & Hid).
      apply find_id_none with (c := c) in E; [contradiction | assumption].
Qed.

Lemma getClubById_found_or_missing_witness :
  getClubById exampleDriver (mkStore true [tsinghua]) (_id tsinghua)
    = detailOk (select hidden tsinghua) /\
  getClubById exampleDriver (mkStore true [tsinghua])
    (js "673257b8c5e4f2a1d8b9e0aa") = notFound.
Proof.
  split.
  - destruct (getClubById_found_or_missing exampleDriver
                (mkStore true [tsinghua]) (_id tsinghua) (_id tsinghua)
                eq_refl) as [H _].
    destruct (H eq_refl) as [_ H'].
    destruct H' as (c & Hc & _ & Hr & _).
    + exists tsinghua. split; [now left | reflexivity].
    + destruct Hc as [<-|[]]. exact Hr.
  - destruct (getClubById_found_or_missing exampleDriver
                (mkStore true [tsinghua]) (js "673257b8c5e4f2a1d8b9e0aa")
                (js "673257b8c5e4f2a1d8b9e0aa") eq_refl) as [H _].
    destruct (H eq_refl) as [[_ H'] _]. apply H'.
    intros c [<-|[]]. discriminate.
Defined.

(** C5 as stated fails: with the store unreachable, an id that casts and
    that no stored club has is answered with 500 SERVER_ERROR, not
    NOT_FOUND, and the id of a stored club is answered with the same
    failure instead of the club's detail projection. *)
Lemma unreachable_store_not_reported_missing :
  let st := mkStore false [tsinghua] in
  let id := js "673257b8c5e4f2a1d8b9e0aa" in
  let r := getClubById exampleDriver st id in
  castObjectId exampleDriver id = Some id /\
  (forall c, In c (clubs st) -> _id c <> id) /\
  status r = 500%Z /\
  errorCode r = Some (js "SERVER_ERROR") /\
  r <> notFound /\
  getClubById exampleDriver st (_id tsinghua) = detailFailed /\
  detailed (getClubById exampleDriver st (_id tsinghua)) = None.
Proof.
  cbv zeta. split; [reflexivity|]. split; [|split; [|split; [|split; [|split]]]].
  - intros c [<-|[]]. discriminate.
  - reflexivity.
  - reflexivity.
  - discriminate.
  - reflexivity.
  - reflexivity.
Qed.

(** An id that does not cast to an ObjectId, such as "abc", makes the
    lookup throw and ends in the catch clause: 500 SERVER_ERROR, on a
    reachable store and although no stored club has that id. The route has
    no check of the id's format; the API reference lists INVALID_ID (400)
    for an ill-formed id. *)
Lemma malformed_id_not_reported_missing :
  let st := mkStore true [tsinghua] in
  let r := getClubById exampleDriver st (js "abc") in
  (forall c, In c (clubs st) -> _id c <> js "abc") /\
  status r = 500%Z /\
  errorCode r = Some (js "SERVER_ERROR") /\
  r <> notFound.
Proof.
  cbv zeta. split; [|split; [|split]].
  - intros c [<-|[]]. discriminate.
  - reflexivity.
  - reflexivity.
  - discriminate.
Qed.

(** ** Unreachable store *)

(** C8, as the code has it. When the store is unreachable both read routes
    surface the failure: the caller gets status 500 with [success] false and
    the routes' one generic error code, SERVER_ERROR, and no data. *)
Theorem unreachable_store_surfaced (d : Driver) (st : Store)
    (search : option jsstring) (id : jsstring) :
  connected st = false ->
  getClubs d st search = listFailed /\
  getClubById d st id = detailFailed /\
  status listFailed = 500%Z /\ status detailFailed = 500%Z /\
  get "success" (body listFailed) = VBool false /\
  get "success" (body detailFailed) = VBool false /\
  errorCode listFailed = Some (js "SERVER_ERROR") /\
  errorCode detailFailed = Some (js "SERVER_ERROR") /\
  listed listFailed = [] /\ detailed detailFailed = None.
Proof.
  intros H. split; [|split].
  - unfold getClubs, queryClubs, Club_find. rewrite H.
    now destruct (buildQuery d search).
  - unfold getClubById, Club_findById. now rewrite H.
  - now repeat split.
Qed.

Lemma unreachable_store_surfaced_witness :
  getClubs exampleDriver (mkStore false [tsinghua]) None = listFailed /\
  getClubById exampleDriver (mkStore false [tsinghua]) (_id tsinghua)
    = detailFailed.
Proof.
  destruct (unreachable_store_surfaced exampleDriver
              (mkStore false [tsinghua]) None (_id tsinghua) eq_refl)
    as (H1 & H2 & _).
  split; [exact H1 | exact H2].
Defined.

(** C8 as stated fails: with the store unreachable both routes report the
    code SERVER_ERROR, which is not STORE_UNAVAILABLE; and the detail route
    gives the very same response on a reachable store to an id that does
    not cast, so the code does not single out an unreachable store. *)
Lemma unreachable_store_code :
  let st := mkStore false [tsinghua] in
  errorCode (getClubs exampleDriver st None) = Some (js "SERVER_ERROR") /\
  errorCode (getClubById exampleDriver st (_id tsinghua))
    = Some (js "SERVER_ERROR") /\
  js "SERVER_ERROR" <> js "STORE_UNAVAILABLE" /\
  getClubById exampleDriver st (_id tsinghua)
    = getClubById exampleDriver (mkStore true [tsinghua]) (js "abc").
Proof.
  cbv zeta. split; [|split; [|split]];
    [reflexivity | reflexivity | discriminate | reflexivity].
Qed.

(** ** The routes do not read the hidden fields *)

Lemma queryHolds_public (d : Driver) (q : Query) (c : Club) :
  queryHolds d q (public c) = queryHolds d q c.
Proof.
  destruct q as [|conds]; simpl; [reflexivity|].
  induction conds as [|[f r] conds IH]; simpl; [reflexivity|].
  now rewrite IH.
Qed.

Lemma find_id_public (oid : ObjectId) (l : list Club) :
  find (fun c => ObjectId_eqb (_id c) oid) (map public l)
  = option_map public (find (fun c => ObjectId_eqb (_id c) oid) l).
Proof.
  induction l as [|c l IH]; simpl; [reflexivity|].
  now destruct (ObjectId_eqb (_id c) oid).
Qed.

Lemma Club_find_public (d : Driver) (st : Store) (q : Query) (n : option nat) :
  Club_find d (mkStore (connected st) (map public (clubs st))) q hidden n
  = Club_find d st q hidden n.
Proof.
  unfold Club_find. simpl. destruct (connected st); [|reflexivity].
  f_equal. rewrite filter_map_swap.
  rewrite (filter_ext _ (queryHolds d q) (queryHolds_public d q)).
  rewrite sortDesc_map by reflexivity.
  rewrite limit_map, map_map. now apply map_ext.
Qed.

Lemma Club_findById_public (d : Driver) (st : Store) (id : jsstring) :
  Club_findById d (mkStore (connected st) (map public (clubs st))) id hidden
  = Club_findById d st id hidden.
Proof.
  unfold Club_findById. simpl. destruct (connected st); [|reflexivity].
  destruct (castObjectId d id) as [oid|]; [|reflexivity].
  rewrite find_id_public. f_equal.
  now destruct (find _ (clubs st)).
Qed.

Lemma getClubs_public (d : Driver) (st : Store) (search : option jsstring) :
  getClubs d (mkStore (connected st) (map public (clubs st))) search
  = getClubs d st search.
Proof.
  unfold getClubs, queryClubs.
  destruct (buildQuery d search); [|reflexivity].
  now rewrite Club_find_public.
Qed.

Lemma getClubById_public (d : Driver) (st : Store) (id : jsstring) :
  getClubById d (mkStore (connected st) (map public (clubs st))) id
  = getClubById d st id.
Proof. unfold getClubById. now rewrite Club_findById_public. Qed.

Lemma formattedClubs_omits (c : Club) : omitsInternal (formattedClubs c).
Proof.
  intros k Hk Hin. cbn in Hk, Hin.
  repeat (destruct Hk as [<-|Hk];
          [repeat (destruct Hin as [Hin|Hin]; [discriminate|]); exact Hin|]).
  exact Hk.
Qed.

Lemma formattedClub_omits (c : Club) : omitsInternal (formattedClub c).
Proof.
  intros k Hk Hin. cbn in Hk, Hin.
  repeat (destruct Hk as [<-|Hk];
          [repeat (destruct Hin as [Hin|Hin]; [discriminate|]); exact Hin|]).
  exact Hk.
Qed.

Lemma envelope_omits (d : Driver) (st : Store) (search : option jsstring)
    (id : jsstring) :
  omitsInternal (body (getClubs d st search)) /\
  omitsInternal (body (getClubById d st id)).
Proof.
  split; intros k Hk Hin.
  - unfold getClubs in Hin. destruct (queryClubs d st search); cbn in Hk, Hin;
      repeat (destruct Hk as [<-|Hk];
              [repeat (destruct Hin as [Hin|Hin]; [discriminate|]); exact Hin|]);
      exact Hk.
  - unfold getClubById in Hin.
    destruct (Club_findById d st id hidden) as [[c|]|]; cbn in Hk, Hin;
      repeat (destruct Hk as [<-|Hk];
              [repeat (destruct Hin as [Hin|Hin]; [discriminate|]); exact Hin|]);
      exact Hk.
Qed.

(** C10. The responses of both read routes carry no property named [__v],
    [sourceSubmission] or [verifiedBy], neither on the response object nor
    on any served club object; and two stores of equal reachability whose
    club documents agree once [sourceSubmission] and [verifiedBy] are
    blanked get identical responses from both routes, for every search
    string and every id. *)
Theorem hidden_fields_not_served (d : Driver) (st st' : Store) :
  connected st = connected st' ->
  map public (clubs st) = map public (clubs st') ->
  (forall search, getClubs d st search = getClubs d st' search) /\
  (forall id, getClubById d st id = getClubById d st' id) /\
  (forall search,
      omitsInternal (body (getClubs d st search)) /\
      forall item, In item (listed (getClubs d st search)) ->
                   omitsInternal item) /\
  (forall id,
      omitsInternal (body (getClubById d st id)) /\
      forall item, detailed (getClubById d st id) = Some item ->
                   omitsInternal item).
Proof.
  intros Hconn Hpub. split; [|split; [|split]].
  - intros search.
    rewrite <- (getClubs_public d st), <- (getClubs_public d st').
    now rewrite Hconn, Hpub.
  - intros id.
    rewrite <- (getClubById_public d st), <- (getClubById_public d st').
    now rewrite Hconn, Hpub.
  - intros search. split; [apply (envelope_omits d st search [])|].
    intros item Hin. destruct (listed_inv _ _ _ _ Hin) as (c & _ & ->).
    apply formattedClubs_omits.
  - intros id. split; [apply (envelope_omits d st None id)|].
    intros item Hd. destruct (detailed_inv _ _ _ _ Hd) as (c & _ & _ & ->).
    apply formattedClub_omits.
Qed.

Lemma hidden_fields_not_served_witness :
  tsinghua <> tsinghua' /\
  getClubs exampleDriver (mkStore true [tsinghua]) (Some [28216%N])
  = getClubs exampleDriver (mkStore true [tsinghua']) (Some [28216%N]) /\
  getClubById exampleDriver (mkStore true [tsinghua]) (_id tsinghua)
  = getClubById exampleDriver (mkStore true [tsinghua']) (_id tsinghua).
Proof.
  destruct (hidden_fields_not_served exampleDriver
              (mkStore true [tsinghua]) (mkStore true [tsinghua'])
              eq_refl eq_refl) as (H1 & H2 & _).
  split; [discriminate|]. split; [apply H1 | apply H2].
Defined.

(** ** Listing with search *)

Lemma sortDesc_sorted (l : list Club) :
  Sorted (fun a b => (createdAt b <= createdAt a)%Z) (sortDesc l).
Proof.
  induction l as [|c l IH]; simpl; [constructor|].
  induction IH as [|d l' Hl' IH' Hd]; simpl.
  - repeat constructor.
  - destruct (createdAt d <=? createdAt c)%Z eqn:E.
    + constructor; [now constructor|]. constructor. now apply Z.leb_le.
    + apply Z.leb_gt in E. constructor; [exact IH'|].
      destruct l' as [|e l'']; simpl.
      * constructor. lia.
      * inversion Hd; subst.
        destruct (createdAt e <=? createdAt c)%Z; constructor; lia.
Qed.

Lemma trim_nil : trim [] = [].
Proof. reflexivity. Qed.

Lemma truthy_string (s : jsstring) : s <> [] -> truthy (VStr s) = true.
Proof. now destruct s. Qed.

Lemma queryHolds_literal (d : Driver) (pat : jsstring) (c : Club) :
  (forall s, regexMatch d pat s = includesCI pat s) ->
  queryHolds d (QOr [(FName, mkRegExp pat); (FSchool, mkRegExp pat);
                     (FProvince, mkRegExp pat); (FCity, mkRegExp pat)]) c
  = partialMatch pat c.
Proof.
  intros H. unfold partialMatch, queryHolds, condHolds. simpl.
  rewrite !H. destruct (city c) as [s|]; [rewrite H|];
    now rewrite ?orb_false_r, !orb_assoc.
Qed.

(** C4, as the code has it. On a reachable store, a search string whose
    trimmed form is non-empty and is read by the driver as literal text
    gets, newest first, at most 20 clubs: the first 20 of those whose name,
    school, province or city contains the trimmed string up to letter case.
    All are such clubs, and when at most 20 clubs match they are exactly
    the matching clubs. Without a search parameter, or with the empty
    string, every stored club is served. *)
Theorem search_listing (d : Driver) (st : Store) (s : jsstring) :
  connected st = true ->
  (trim s <> [] -> literalPattern d (trim s) ->
   let hits := filter (partialMatch (trim s)) (clubs st) in
   exists docs,
     getClubs d st (Some s) = listOk docs /\
     docs = map (select hidden) (firstn 20 (sortDesc hits)) /\
     List.length docs = Nat.min 20 (List.length hits) /\
     (forall doc, In doc docs ->
        exists c, In c (clubs st) /\ partialMatch (trim s) c = true /\
                  doc = select hidden c) /\
     (List.length hits <= 20 -> Permutation docs (map (select hidden) hits))) /\
  (exists docs,
     getClubs d st None = listOk docs /\ getClubs d st (Some []) = listOk docs /\
     docs = map (select hidden) (sortDesc (clubs st)) /\
     Permutation docs (map (select hidden) (clubs st))).
Proof.
  intros Hconn. split.
  - intros Hne [Hcomp Hlit]. cbv zeta.
    set (hits := filter (partialMatch (trim s)) (clubs st)).
    exists (map (select hidden) (firstn 20 (sortDesc hits))).
    assert (Hs : s <> []) by (intros ->; now apply Hne).
    split; [|split; [reflexivity|split; [|split]]].
    + unfold getClubs, queryClubs, buildQuery, searchGiven, Club_find, ofOption.
      rewrite (truthy_string s Hs), (truthy_string (trim s) Hne).
      cbn [andb]. rewrite Hcomp, Hconn. cbn [limit].
      do 4 f_equal. subst hits.
      apply filter_ext. intros c. now apply queryHolds_literal.
    + rewrite length_map, length_firstn.
      now rewrite (Permutation_length (sortDesc_perm hits)).
    + intros doc Hin. apply in_map_iff in Hin as (c & <- & Hc).
      apply (limit_In (Some 20%nat)), sortDesc_In, filter_In in Hc as [Hc Hm].
      now exists c.
    + intros Hle. rewrite firstn_all2.
      * apply Permutation_map, sortDesc_perm.
      * now rewrite (Permutation_length (sortDesc_perm hits)).
  - exists (map (select hidden) (sortDesc (clubs st))).
    split; [now apply getClubs_all|]. split; [|split; [reflexivity|]].
    + unfold getClubs, queryClubs, Club_find. simpl.
      now rewrite Hconn, filter_all.
    + apply Permutation_map, sortDesc_perm.
Qed.

(** A search string the [RegExp] constructor refuses ends in the route's
    catch clause. *)
Lemma malformed_pattern_fails (d : Driver) (st : Store) (s : jsstring) :
  trim s <> [] -> regexCompiles d (trim s) = false ->
  getClubs d st (Some s) = listFailed.
Proof.
  intros Hne Hc.
  assert (Hs : s <> []) by (intros ->; now apply Hne).
  unfold getClubs, queryClubs, buildQuery.
  now rewrite (truthy_string s Hs), (truthy_string (trim s) Hne), Hc.
Qed.

Lemma search_listing_witness :
  exists docs,
    getClubs exampleDriver (mkStore true (tsinghua :: crowd)) (Some (js " A "))
      = listOk docs /\
    List.length docs = 20%nat.
Proof.
  destruct (search_listing exampleDriver (mkStore true (tsinghua :: crowd))
              (js " A ") eq_refl) as [H _].
  destruct H as (docs & Hr & _ & Hlen & _).
  - discriminate.
  - split; [reflexivity|]. intros s0. reflexivity.
  - exists docs. split; [exact Hr | exact Hlen].
Defined.

(** C4 as stated fails: with 21 stored clubs that all match the search
    string "a", the list route serves 20 entries, and a matching club is
    missing from the response. *)
Lemma search_results_capped :
  let st := mkStore true crowd in
  let r := getClubs exampleDriver st (Some (js "a")) in
  Forall (fun c => partialMatch (js "a") c = true) (clubs st) /\
  List.length (clubs st) = 21%nat /\
  status r = 200%Z /\
  List.length (listed r) = 20%nat /\
  exists c, In c (clubs st) /\ partialMatch (js "a") c = true /\
            ~ In (formattedClubs (select hidden c)) (listed r).
Proof.
  cbv zeta. split; [|split; [|split; [|split]]].
  - repeat constructor.
  - reflexivity.
  - reflexivity.
  - reflexivity.
  - exists (plainClub (oidOf 0) (js "a") 0). split; [now left|].
    split; [reflexivity|].
    vm_compute. intros H.
    repeat (destruct H as [H|H]; [discriminate H|]). exact H.
Qed.

(** The cap also applies to a search string of blanks, which filters
    nothing: 21 stored clubs, 20 served. *)
Lemma blank_search_capped :
  let r := getClubs exampleDriver (mkStore true crowd) (Some (js " ")) in
  status r = 200%Z /\ List.length (listed r) = 20%nat.
Proof. cbv zeta. split; reflexivity. Qed.

(** ** Coordinate validation *)

Lemma is_nan_Prim2SF (x : float) :
  PrimFloat.is_nan x = false -> Prim2SF x <> S754_nan.
Proof.
  unfold PrimFloat.is_nan. rewrite eqb_spec. intros H E.
  rewrite E in H. discriminate.
Qed.

Lemma SFcompare_antisym (a b : spec_float) :
  a <> S754_nan -> b <> S754_nan ->
  SFcompare b a = option_map CompOpp (SFcompare a b).
Proof.
  intros Ha Hb.
  destruct a as [sa|sa| |sa ma ea], b as [sb|sb| |sb mb eb];
    try congruence; simpl;
    try (destruct sa; reflexivity); try (destruct sb; reflexivity);
    try (destruct sa, sb; reflexivity).
  rewrite (Z.compare_antisym ea eb).
  change (PosDef.Pos.compare_cont Eq mb ma) with (Pos.compare mb ma).
  change (PosDef.Pos.compare_cont Eq ma mb) with (Pos.compare ma mb).
  rewrite (Pos.compare_antisym ma mb).
  destruct sa, sb; try reflexivity;
    destruct (ea ?= eb)%Z; simpl; try reflexivity;
    destruct (ma ?= mb)%positive; reflexivity.
Qed.

(** On numbers, [x < y] is the negation of [y <= x]. *)
Lemma ltb_negb_leb (x y : float) :
  PrimFloat.is_nan x = false -> PrimFloat.is_nan y = false ->
  (x <? y)%float = negb (y <=? x)%float.
Proof.
  intros Hx Hy. rewrite ltb_spec, leb_spec. unfold SFltb, SFleb.
  rewrite (SFcompare_antisym (Prim2SF x) (Prim2SF y))
    by now apply is_nan_Prim2SF.
  destruct (SFcompare (Prim2SF x) (Prim2SF y)) as [[| |]|] eqn:E;
    try reflexivity.
  exfalso. apply is_nan_Prim2SF in Hx, Hy.
  destruct (Prim2SF x), (Prim2SF y); simpl in E; congruence.
Qed.

Lemma leb_not_nan (x y : float) :
  (x <=? y)%float = true ->
  PrimFloat.is_nan x = false /\ PrimFloat.is_nan y = false.
Proof.
  rewrite leb_spec. unfold SFleb, PrimFloat.is_nan. rewrite !eqb_spec.
  unfold SFeqb.
  assert (R : forall a, a <> S754_nan -> SFcompare a a = Some Eq).
  { intros [s|s| |s m e] Ha; try congruence; cbn [SFcompare].
    - reflexivity.
    - now destruct s.
    - rewrite Z.compare_refl.
      change (PosDef.Pos.compare_cont Eq m m) with (Pos.compare m m).
      rewrite Pos.compare_refl. now destruct s. }
  intros H.
  assert (Hx : Prim2SF x <> S754_nan)
    by (intros E; rewrite E in H; discriminate).
  assert (Hy : Prim2SF y <> S754_nan)
    by (intros E; rewrite E in H; destruct (Prim2SF x); discriminate).
  now rewrite !R.
Qed.

Lemma inRange_number (lo hi x : float) :
  inRange lo hi x = true -> PrimFloat.is_nan x = false.
Proof.
  unfold inRange. intros H. apply andb_prop in H as [H _].
  now apply leb_not_nan in H.
Qed.

Lemma outside_range (lo hi x : float) :
  PrimFloat.is_nan lo = false -> PrimFloat.is_nan hi = false ->
  PrimFloat.is_nan x = false ->
  ((x <? lo) || (hi <? x))%float = negb (inRange lo hi x).
Proof.
  intros Hlo Hhi Hx. unfold inRange.
  rewrite (ltb_negb_leb x lo), (ltb_negb_leb hi x) by assumption.
  now rewrite negb_andb.
Qed.

Lemma validateCoordinates_inRange (lat lng : float) :
  Intake.validateCoordinates lat lng = Intake.Ok tt <->
  inRange (-90) 90 lat = true /\ inRange (-180) 180 lng = true.
Proof.
  unfold Intake.validateCoordinates.
  destruct (PrimFloat.is_nan lat) eqn:Hlat.
  { simpl. split; [discriminate|]. intros [H _].
    apply inRange_number in H. congruence. }
  destruct (PrimFloat.is_nan lng) eqn:Hlng.
  { simpl. split; [discriminate|]. intros [_ H].
    apply inRange_number in H. congruence. }
  simpl. rewrite !outside_range by (assumption || reflexivity).
  destruct (inRange (-90) 90 lat), (inRange (-180) 180 lng); simpl;
    split; (discriminate || tauto || (intros [? ?]; discriminate)).
Qed.

Lemma validateCoordinates_throws (lat lng : float) :
  (exists m, Intake.validateCoordinates lat lng = Intake.Throw m) <->
  inRange (-90) 90 lat = false \/ inRange (-180) 180 lng = false.
Proof.
  pose proof (validateCoordinates_inRange lat lng) as [H1 H2].
  destruct (Intake.validateCoordinates lat lng) as [[]|m] eqn:E.
  - destruct (H1 eq_refl) as [-> ->].
    split; [intros [m Hm]; discriminate | intros [H|H]; discriminate].
  - split; [intros _ | intros _; now exists m].
    destruct (inRange (-90) 90 lat); [|now left].
    destruct (inRange (-180) 180 lng); [|now right].
    now specialize (H2 (conj eq_refl eq_refl)).
Qed.

Lemma buildPayload_validated (parseFloat : jsstring -> float)
    (f : Intake.Form) (p : Intake.Payload) :
  Intake.buildPayload parseFloat f = Intake.Ok p ->
  Intake.latitude p = parseFloat (trim (Intake.latitudeInput f)) /\
  Intake.longitude p = parseFloat (trim (Intake.longitudeInput f)) /\
  Intake.validateCoordinates (Intake.latitude p) (Intake.longitude p)
    = Intake.Ok tt.
Proof.
  unfold Intake.buildPayload, Intake.bind.
  destruct (Intake.validateCoordinates _ _) as [[]|m] eqn:E; [|discriminate].
  destruct (Intake.parseTags _) as [tags|m]; [|discriminate].
  intros [= <-]. simpl. now repeat split.
Qed.

(** C6. Coordinate validation throws exactly when the latitude is not a
    number in [-90, 90] or the longitude is not a number in [-180, 180], and
    returns otherwise; a value in range is never NaN. The submit handler
    builds a payload only after the check has passed on the parsed pair, and
    the payload carries that pair. *)
Theorem coordinates_validated :
  (forall lat lng,
      (exists m, Intake.validateCoordinates lat lng = Intake.Throw m) <->
      inRange (-90) 90 lat = false \/ inRange (-180) 180 lng = false) /\
  (forall lat lng,
      Intake.validateCoordinates lat lng = Intake.Ok tt <->
      inRange (-90) 90 lat = true /\ inRange (-180) 180 lng = true) /\
  (forall lo hi x, inRange lo hi x = true -> PrimFloat.is_nan x = false) /\
  (forall parseFloat f,
      (forall p, Intake.buildPayload parseFloat f = Intake.Ok p ->
         Intake.latitude p = parseFloat (trim (Intake.latitudeInput f)) /\
         Intake.longitude p = parseFloat (trim (Intake.longitudeInput f)) /\
         inRange (-90) 90 (Intake.latitude p) = true /\
         inRange (-180) 180 (Intake.longitude p) = true) /\
      (forall m,
         Intake.validateCoordinates
           (parseFloat (trim (Intake.latitudeInput f)))
           (parseFloat (trim (Intake.longitudeInput f))) = Intake.Throw m ->
         Intake.buildPayload parseFloat f = Intake.Throw m)).
Proof.
  split; [exact validateCoordinates_throws|].
  split; [exact validateCoordinates_inRange|].
  split; [exact inRange_number|].
  intros parseFloat f. split.
  - intros p Hp.
    destruct (buildPayload_validated _ _ _ Hp) as (Hlat & Hlng & Hv).
    apply validateCoordinates_inRange in Hv as [H1 H2]. now repeat split.
  - intros m Hm. unfold Intake.buildPayload. now rewrite Hm.
Qed.

(** The boundary values pass; a value just outside, an infinity and NaN do
    not. *)
Lemma validateCoordinates_examples :
  Intake.validateCoordinates 39.9995 116.3267 = Intake.Ok tt /\
  Intake.validateCoordinates (-90) 180 = Intake.Ok tt /\
  Intake.validateCoordinates 90 (-180) = Intake.Ok tt /\
  Intake.validateCoordinates 90.000001 0 = Intake.Throw Intake.msgLatitudeRange /\
  Intake.validateCoordinates 0 180.5 = Intake.Throw Intake.msgLongitudeRange /\
  Intake.validateCoordinates PrimFloat.infinity 0
    = Intake.Throw Intake.msgLatitudeRange /\
  Intake.validateCoordinates PrimFloat.nan 0
    = Intake.Throw Intake.msgInvalidNumber /\
  Intake.validateCoordinates 0 PrimFloat.nan
    = Intake.Throw Intake.msgInvalidNumber.
Proof. repeat split; reflexivity. Qed.

(** ** Tag parsing *)

Section StringFacts.

Variable P : char16 -> Prop.

Lemma trimStart_clean (s : jsstring) : clean (trimStart s).
Proof.
  induction s as [|c s IH]; simpl; [exact I|].
  destruct (isWhiteSpace c) eqn:E; [exact IH | exact E].
Qed.

Lemma clean_trimStart (s : jsstring) : clean s -> trimStart s = s.
Proof. destruct s as [|c s]; simpl; [reflexivity | now intros ->]. Qed.

Lemma trimStart_snoc (l : jsstring) (c : char16) :
  isWhiteSpace c = false -> exists l', trimStart (l ++ [c]) = l' ++ [c].
Proof.
  intros Hc. induction l as [|a l IH]; simpl.
  - rewrite Hc. now exists [].
  - destruct (isWhiteSpace a); [exact IH | now exists (a :: l)].
Qed.

Lemma clean_trimEnd (s : jsstring) : clean s -> clean (trimEnd s).
Proof.
  destruct s as [|c s]; [intros _; exact I|]. simpl. intros Hc.
  unfold trimEnd. simpl rev.
  destruct (trimStart_snoc (rev s) c Hc) as [l' ->].
  now rewrite rev_app_distr.
Qed.

Lemma trim_trimmed (s : jsstring) : trimmed (trim s).
Proof.
  split.
  - apply clean_trimEnd, trimStart_clean.
  - unfold trim, trimEnd. rewrite rev_involutive. apply trimStart_clean.
Qed.

Lemma trimmed_trim (s : jsstring) : trimmed s -> trim s = s.
Proof.
  intros [H1 H2]. unfold trim, trimEnd.
  rewrite (clean_trimStart s H1), (clean_trimStart (rev s) H2).
  apply rev_involutive.
Qed.

Lemma Forall_trimStart (s : jsstring) : Forall P s -> Forall P (trimStart s).
Proof.
  induction 1 as [|c s Hc Hs IH]; simpl; [constructor|].
  destruct (isWhiteSpace c); [exact IH | now constructor].
Qed.

Lemma Forall_trim (s : jsstring) : Forall P s -> Forall P (trim s).
Proof.
  intros H. unfold trim, trimEnd.
  now apply Forall_rev, Forall_trimStart, Forall_rev, Forall_trimStart.
Qed.

End StringFacts.

Lemma length_trimStart (s : jsstring) :
  List.length (trimStart s) <= List.length s.
Proof.
  induction s as [|c s IH]; simpl; [lia|].
  destruct (isWhiteSpace c); simpl; lia.
Qed.

Lemma length_trim (s : jsstring) : List.length (trim s) <= List.length s.
Proof.
  unfold trim, trimEnd. rewrite length_rev.
  etransitivity; [apply length_trimStart|]. rewrite length_rev.
  apply length_trimStart.
Qed.

Section SplitFacts.

Variable sep : char16 -> bool.

Lemma split_no_separator (s : jsstring) :
  Forall (Forall (fun c => sep c = false)) (Intake.split sep s).
Proof.
  induction s as [|c s IH]; simpl; [repeat constructor|].
  destruct (sep c) eqn:E; [now constructor|].
  destruct (Intake.split sep s) as [|seg rest]; [repeat constructor; exact E|].
  inversion IH; subst. constructor; [now constructor | assumption].
Qed.

Lemma split_rejoin (s : jsstring) :
  rejoin (Intake.split sep s) (filter sep s) = s.
Proof.
  induction s as [|c s IH]; simpl; [reflexivity|].
  destruct (sep c) eqn:E; simpl; [now rewrite IH|].
  destruct (Intake.split sep s) as [|seg rest]; simpl in *.
  - now rewrite <- IH.
  - destruct (filter sep s); simpl; now rewrite <- IH.
Qed.

Lemma split_segment_length (s seg : jsstring) :
  In seg (Intake.split sep s) -> List.length seg <= List.length s.
Proof.
  revert seg. induction s as [|c s IH]; simpl; intros seg Hin.
  - destruct Hin as [<-|[]]. simpl. lia.
  - destruct (sep c).
    + destruct Hin as [<-|Hin]; [simpl; lia|]. specialize (IH _ Hin). lia.
    + destruct (Intake.split sep s) as [|seg0 rest].
      * destruct Hin as [<-|[]].
        destruct s; simpl in *; lia.
      * destruct Hin as [<-|Hin]; simpl.
        -- specialize (IH seg0 (or_introl eq_refl)). lia.
        -- specialize (IH seg (or_intror Hin)). lia.
Qed.

End SplitFacts.

Lemma parseTags_cases (raw : jsstring) :
  Intake.parseTags raw =
  if (10 <? List.length (candidateTags raw))%nat
  then Intake.Throw Intake.msgTooManyTags
  else Intake.Ok (candidateTags raw).
Proof.
  unfold Intake.parseTags. destruct raw as [|c raw]; reflexivity.
Qed.

Lemma candidateTags_shape (raw tag : jsstring) :
  In tag (candidateTags raw) ->
  tag <> [] /\ trimmed tag /\
  Forall (fun c => Intake.isTagSeparator c = false) tag /\
  List.length tag <= List.length raw /\
  exists seg, In seg (Intake.split Intake.isTagSeparator raw) /\ tag = trim seg.
Proof.
  unfold candidateTags. intros Hin.
  apply filter_In in Hin as [Hin Hne].
  apply in_map_iff in Hin as (seg & <- & Hseg).
  split; [intros E; rewrite E in Hne; discriminate|].
  split; [apply trim_trimmed|].
  split.
  - apply Forall_trim.
    pose proof (split_no_separator Intake.isTagSeparator raw) as H.
    rewrite Forall_forall in H. now apply H.
  - split; [|now exists seg].
    etransitivity; [apply length_trim|].
    now apply split_segment_length with (sep := Intake.isTagSeparator).
Qed.

(** C7, as the code has it. [parseTags] returns the candidate tags of its
    input when there are at most 10 and throws when there are more. The
    segments it trims are the pieces of the input between commas, fullwidth
    commas and line feeds. A returned list has at most 10 tags, each
    non-empty, without white space at either end, without a separator, and
    a trimmed segment of the input, so no longer than the input. *)
Theorem parseTags_bounded (raw : jsstring) :
  (List.length (candidateTags raw) <= 10 ->
   Intake.parseTags raw = Intake.Ok (candidateTags raw)) /\
  (10 < List.length (candidateTags raw) ->
   Intake.parseTags raw = Intake.Throw Intake.msgTooManyTags) /\
  (forall tags,
     Intake.parseTags raw = Intake.Ok tags ->
     List.length tags <= 10 /\
     Forall (fun tag =>
               tag <> [] /\ trimmed tag /\
               Forall (fun c => Intake.isTagSeparator c = false) tag /\
               List.length tag <= List.length raw /\
               exists seg,
                 In seg (Intake.split Intake.isTagSeparator raw) /\
                 tag = trim seg) tags) /\
  rejoin (Intake.split Intake.isTagSeparator raw)
         (filter Intake.isTagSeparator raw) = raw /\
  Forall (Forall (fun c => Intake.isTagSeparator c = false))
         (Intake.split Intake.isTagSeparator raw).
Proof.
  rewrite parseTags_cases.
  split; [|split; [|split; [|split]]].
  - intros H. apply Nat.ltb_ge in H. now rewrite H.
  - intros H. apply Nat.ltb_lt in H. now rewrite H.
  - intros tags.
    destruct (10 <? List.length (candidateTags raw))%nat eqn:E; [discriminate|].
    intros [= <-]. apply Nat.ltb_ge in E. split; [exact E|].
    apply Forall_forall. intros tag. apply candidateTags_shape.
  - apply split_rejoin.
  - apply split_no_separator.
Qed.

(** C7 as stated fails: [parseTags] puts no limit on the length of a tag.
    A single tag of 21 letters, over the documented 20, is returned as it
    is, and so is one of 1000 letters. *)
Lemma long_tag_accepted :
  Intake.parseTags (repeat 97%N 21) = Intake.Ok [repeat 97%N 21] /\
  List.length (repeat 97%N 21) = 21%nat /\
  Intake.parseTags (repeat 97%N 1000) = Intake.Ok [repeat 97%N 1000] /\
  List.length (repeat 97%N 1000) = 1000%nat.
Proof. repeat split; vm_compute; reflexivity. Qed.

(** Eleven tags are refused, ten are returned trimmed; separators and
    blank segments do not count. *)
Lemma parseTags_examples :
  Intake.parseTags (js "a,b,c,d,e,f,g,h,i,j,k")
    = Intake.Throw Intake.msgTooManyTags /\
  Intake.parseTags ([32; 97; 32; 65292; 10; 44; 98; 32; 99; 10]%N)
    = Intake.Ok [js "a"; js "b c"] /\
  Intake.parseTags [] = Intake.Ok [] /\
  Intake.parseTags (js " , ") = Intake.Ok [].
Proof. repeat split; reflexivity. Qed.

(** ** Approval and snapshot *)

Lemma isPending_false (s : Pipeline.Status) :
  s <> Pipeline.PENDING -> Pipeline.isPending s = false.
Proof. destruct s; [congruence | reflexivity | reflexivity]. Qed.

(** C3. For a submission whose status is terminal, [approve] fails with
    INVALID_STATUS carrying that status and leaves the whole state as it
    was: submissions, Published Records, snapshot and backup; so does
    [reject] called with a reason. *)
Theorem terminal_transition_refused
    (serialize : value -> list Byte.byte) (st : Pipeline.State)
    (id fresh : ObjectId) (now : Z) (actor : jsstring)
    (s : Pipeline.Submission) :
  Pipeline.getSubmission st id = Some s ->
  Pipeline.status s <> Pipeline.PENDING ->
  Pipeline.approve serialize fresh now id actor st
    = (Pipeline.Fail (Pipeline.INVALID_STATUS (Pipeline.status s)), st) /\
  forall reason, reason <> [] ->
    Pipeline.reject now id actor reason st
      = (Pipeline.Fail (Pipeline.INVALID_STATUS (Pipeline.status s)), st).
Proof.
  intros Hget Hterm. apply isPending_false in Hterm. split.
  - unfold Pipeline.approve. now rewrite Hget, Hterm.
  - intros [|c reason] Hne; [congruence|].
    unfold Pipeline.reject. now rewrite Hget, Hterm.
Qed.

Lemma terminal_transition_refused_witness :
  List.length (Pipeline.records approvedState) = 1%nat /\
  Pipeline.approve countingEncoder (js "673257b8c5e4f2a1d8b9e013")
    1762819200001 (js "673257b8c5e4f2a1d8b9e011") (js "admin2") approvedState
  = (Pipeline.Fail (Pipeline.INVALID_STATUS Pipeline.APPROVED), approvedState).
Proof.
  split; [reflexivity|].
  refine (proj1 (terminal_transition_refused countingEncoder approvedState
                   (js "673257b8c5e4f2a1d8b9e011")
                   (js "673257b8c5e4f2a1d8b9e013") 1762819200001 (js "admin2")
                   (Pipeline.review Pipeline.APPROVED (js "admin1")
                      1762819200000 None scenarioSubmission) _ _)).
  - reflexivity.
  - discriminate.
Defined.

(** C9. [rebuild()] run twice in a row writes the same snapshot bytes both
    times; the snapshot depends only on the Published Records, not on the
    snapshot or backup found before the run, and a run changes no record.
    After the second run the backup holds those same bytes. *)
Theorem rebuild_idempotent (serialize : value -> list Byte.byte)
    (st : Pipeline.State) :
  Pipeline.snapshot (Pipeline.rebuild serialize (Pipeline.rebuild serialize st))
    = Pipeline.snapshot (Pipeline.rebuild serialize st) /\
  Pipeline.snapshot (Pipeline.rebuild serialize st)
    = Some (serialize (VArr (map Pipeline.snapshotEntry (Pipeline.records st)))) /\
  Pipeline.records (Pipeline.rebuild serialize st) = Pipeline.records st /\
  Pipeline.submissions (Pipeline.rebuild serialize st) = Pipeline.submissions st /\
  Pipeline.backup (Pipeline.rebuild serialize (Pipeline.rebuild serialize st))
    = Pipeline.snapshot (Pipeline.rebuild serialize st) /\
  (forall st',
     (Pipeline.records st' = Pipeline.records st ->
      Pipeline.snapshot (Pipeline.rebuild serialize st')
        = Pipeline.snapshot (Pipeline.rebuild serialize st))).
Proof.
  repeat split. intros st' H. simpl. now rewrite H.
Qed.

(** The end-to-end scenario: after approval the record keeps both
    descriptions as submitted, stores [[116.3267, 39.9995]], and the
    snapshot entry lists the pair in that order. *)
Lemma scenario_snapshot_entry :
  match Pipeline.records approvedState with
  | [c] =>
      shortDescription c = Some (js "A") /\
      description c = Some (js "B B B") /\
      coordinates c = [116.3267; 39.9995]%float /\
      get "coordinates" (Pipeline.snapshotEntry c)
        = VArr [VNum 116.3267; VNum 39.9995] /\
      get "short_description" (Pipeline.snapshotEntry c) = VStr (js "A") /\
      get "long_description" (Pipeline.snapshotEntry c) = VStr (js "B B B")
  | _ => False
  end.
Proof. vm_compute. repeat split. Qed.

(** * Further properties of the read routes *)

Lemma listed_failure (code : Z) (e : string) (m : jsstring) :
  listed (failure code e m) = [].
Proof. reflexivity. Qed.

Lemma getClubs_cases (d : Driver) (st : Store) (search : option jsstring) :
  (exists docs, queryClubs d st search = Resolved docs /\
                getClubs d st search = listOk docs) \/
  (queryClubs d st search = Rejected /\ getClubs d st search = listFailed).
Proof.
  unfold getClubs. destruct (queryClubs d st search) as [docs|].
  - left. now exists docs.
  - now right.
Qed.

Lemma queryClubs_limited (d : Driver) (st : Store) (s : jsstring)
    (found : list Club) :
  s <> [] -> queryClubs d st (Some s) = Resolved found ->
  List.length found <= 20.
Proof.
  intros Hs. unfold queryClubs, searchGiven, ofOption.
  rewrite (truthy_string s Hs).
  destruct (buildQuery d (Some s)) as [q|]; [|discriminate].
  unfold Club_find. destruct (connected st); [|discriminate].
  cbv iota. cbn [limit]. intros E.
  assert (E' : found = map (select hidden)
                 (firstn 20 (sortDesc (filter (queryHolds d q) (clubs st)))))
    by congruence.
  rewrite E', length_map, length_firstn. apply Nat.le_min_l.
Qed.

(** X1. Whatever the search string, the driver and the store, a list
    response to a non-empty search string has at most 20 entries. *)
Theorem search_never_exceeds_cap (d : Driver) (st : Store) (s : jsstring) :
  s <> [] -> List.length (listed (getClubs d st (Some s))) <= 20.
Proof.
  intros Hs.
  destruct (getClubs_cases d st (Some s)) as [(docs & Hq & ->)|[_ ->]].
  - rewrite listed_listOk, length_map.
    now apply (queryClubs_limited d st s docs).
  - simpl. lia.
Qed.

Lemma search_never_exceeds_cap_witness :
  List.length (listed (getClubs exampleDriver (mkStore true crowd)
                         (Some (js "a"))))
  <= 20.
Proof.
  apply (search_never_exceeds_cap exampleDriver (mkStore true crowd) (js "a")).
  discriminate.
Defined.

Section SortedFacts.

Variable A : Type.
Variable R : A -> A -> Prop.

Lemma HdRel_firstn (a : A) (n : nat) (l : list A) :
  HdRel R a l -> HdRel R a (firstn n l).
Proof. intros H. destruct H, n; simpl; now constructor. Qed.

Lemma Sorted_firstn (n : nat) (l : list A) :
  Sorted R l -> Sorted R (firstn n l).
Proof.
  intros H. revert n. induction H as [|a l Hl IH Hd]; intros n.
  - rewrite firstn_nil. constructor.
  - destruct n; simpl; [constructor|].
    constructor; [apply IH | now apply HdRel_firstn].
Qed.

End SortedFacts.

Lemma Sorted_map_createdAt (f : Club -> Club) (l : list Club) :
  (forall x, createdAt (f x) = createdAt x) ->
  Sorted (fun a b => (createdAt b <= createdAt a)%Z) l ->
  Sorted (fun a b => (createdAt b <= createdAt a)%Z) (map f l).
Proof.
  intros Hf H. induction H as [|a l Hl IH Hd]; simpl; constructor.
  - exact IH.
  - destruct Hd; simpl; constructor. now rewrite !Hf.
Qed.

(** X2. The documents behind a list response are in descending order of
    creation time, with or without a search string, capped or not. *)
Theorem listing_newest_first (d : Driver) (st : Store)
    (search : option jsstring) (docs : list Club) :
  queryClubs d st search = Resolved docs ->
  getClubs d st search = listOk docs /\
  Sorted (fun a b => (createdAt b <= createdAt a)%Z) docs.
Proof.
  intros H. split; [unfold getClubs; now rewrite H|].
  unfold queryClubs in H. destruct (buildQuery d search) as [q|]; [|discriminate].
  unfold Club_find in H. destruct (connected st); [|discriminate].
  injection H as <-.
  apply Sorted_map_createdAt; [reflexivity|].
  destruct (if searchGiven search then Some 20%nat else None) as [k|]; simpl.
  - apply Sorted_firstn, sortDesc_sorted.
  - apply sortDesc_sorted.
Qed.

Lemma listing_newest_first_witness :
  Sorted (fun a b => (createdAt b <= createdAt a)%Z)
    (map (select hidden) (sortDesc (tsinghua :: crowd))).
Proof.
  apply (listing_newest_first exampleDriver (mkStore true (tsinghua :: crowd))
           None).
  reflexivity.
Defined.

(** X3. The list route answers either 200 with [success] true, no error
    code and a [total] equal to the number of entries, or its one failure
    response (500, SERVER_ERROR); it never answers 404. The detail route
    answers 200 with [success] true and a data object, or 404 NOT_FOUND, or
    500 SERVER_ERROR, and nothing else. *)
Theorem responses_well_formed (d : Driver) (st : Store)
    (search : option jsstring) (id : jsstring) :
  (status (getClubs d st search) = 200%Z /\
   get "success" (body (getClubs d st search)) = VBool true /\
   errorCode (getClubs d st search) = None /\
   get "total" (body (getClubs d st search))
     = VNum (lengthNum (listed (getClubs d st search)))
   \/ getClubs d st search = listFailed) /\
  (status (getClubById d st id) = 200%Z /\
   get "success" (body (getClubById d st id)) = VBool true /\
   errorCode (getClubById d st id) = None /\
   (exists item, detailed (getClubById d st id) = Some item)
   \/ getClubById d st id = notFound
   \/ getClubById d st id = detailFailed) /\
  status listFailed = 500%Z /\ status detailFailed = 500%Z /\
  status notFound = 404%Z /\
  get "success" (body listFailed) = VBool false /\
  get "success" (body detailFailed) = VBool false /\
  get "success" (body notFound) = VBool false.
Proof.
  split; [|split].
  - destruct (getClubs_cases d st search) as [(docs & _ & ->)|[_ ->]];
      [left | now right].
    now repeat split.
  - unfold getClubById.
    destruct (Club_findById d st id hidden) as [[c|]|].
    + left. repeat split. now exists (formattedClub c).
    + right. now left.
    + right. now right.
  - now repeat split.
Qed.

Lemma js_or_same (a : value) : js_or a a = a.
Proof. unfold js_or. now destruct (truthy a). Qed.

Lemma listed_connected (d : Driver) (st : Store) (search : option jsstring)
    (item : value) :
  In item (listed (getClubs d st search)) -> connected st = true.
Proof.
  unfold getClubs, queryClubs, Club_find.
  destruct (buildQuery d search); [|intros []].
  destruct (connected st); [reflexivity | intros []].
Qed.

Lemma find_id_some (oid : ObjectId) (l : list Club) (c : Club) :
  In c l -> _id c = oid ->
  exists c', find (fun x => ObjectId_eqb (_id x) oid) l = Some c' /\
             In c' l /\ _id c' = oid.
Proof.
  intros Hc Hid.
  destruct (find (fun x => ObjectId_eqb (_id x) oid) l) as [c'|] eqn:E.
  - exists c'. apply find_some in E as [H1 H2].
    apply ObjectId_eqb_eq in H2. now repeat split.
  - exfalso. apply find_id_none with (c := c) in E; [contradiction|assumption].
Qed.

Lemma NoDup_map_inj (A B : Type) (f : A -> B) (l : list A) (a b : A) :
  NoDup (map f l) -> In a l -> In b l -> f a = f b -> a = b.
Proof.
  induction l as [|x l IH]; simpl; [easy|].
  intros Hnd Ha Hb E. inversion Hnd as [|? ? Hx Hl]; subst.
  destruct Ha as [<-|Ha], Hb as [<-|Hb].
  - reflexivity.
  - exfalso. apply Hx. rewrite E. now apply in_map.
  - exfalso. apply Hx. rewrite <- E. now apply in_map.
  - now apply IH.
Qed.

Lemma projections_agree (c : Club) (k : string) :
  In k (keys (formattedClub c)) ->
  get k (formattedClubs c) = get k (formattedClub c).
Proof.
  intros Hk. cbn in Hk.
  repeat (destruct Hk as [<-|Hk]; [cbn; now rewrite ?js_or_same|]).
  destruct Hk.
Qed.

(** X4. When every stored id casts to itself, each entry of a list response
    carries an id that the detail route resolves: asked for that id it
    answers 200 with a data object of the same id. When moreover no two
    stored clubs share an id, that data object agrees with the list entry
    on every property it has. *)
Theorem listed_id_resolves (d : Driver) (st : Store)
    (search : option jsstring) (item : value) :
  (forall c, In c (clubs st) -> castObjectId d (_id c) = Some (_id c)) ->
  In item (listed (getClubs d st search)) ->
  exists oid data,
    get "id" item = VStr oid /\
    status (getClubById d st oid) = 200%Z /\
    detailed (getClubById d st oid) = Some data /\
    get "id" data = VStr oid /\
    (NoDup (map _id (clubs st)) ->
     forall k, In k (keys data) -> get k item = get k data).
Proof.
  intros Hcast Hin.
  pose proof (listed_connected _ _ _ _ Hin) as Hconn.
  destruct (listed_inv _ _ _ _ Hin) as (c & Hc & ->).
  destruct (find_id_some (_id c) (clubs st) c Hc eq_refl) as (c' & Hf & Hc' & Hid).
  exists (_id c), (formattedClub (select hidden c')).
  assert (Hr : getClubById d st (_id c) = detailOk (select hidden c')).
  { unfold getClubById, Club_findById.
    now rewrite Hconn, (Hcast c Hc), Hf. }
  rewrite Hr. split; [cbn; apply js_or_same|].
  split; [reflexivity|]. split; [reflexivity|].
  split; [cbn; now rewrite Hid|].
  intros Hnd k Hk.
  assert (c' = c) by (apply (NoDup_map_inj _ _ _id (clubs st)); assumption).
  subst c'. now apply projections_agree.
Qed.

Lemma listed_id_resolves_witness :
  exists oid data,
    get "id" (formattedClubs (select hidden tsinghua)) = VStr oid /\
    detailed (getClubById exampleDriver (mkStore true (tsinghua :: crowd)) oid)
      = Some data /\
    get "name" data = VStr (name tsinghua).
Proof.
  destruct (listed_id_resolves exampleDriver (mkStore true (tsinghua :: crowd))
              None (formattedClubs (select hidden tsinghua)))
    as (oid & data & Hid & _ & Hd & _ & Hk).
  - intros c Hc. simpl in Hc.
    repeat (destruct Hc as [<-|Hc]; [reflexivity|]). destruct Hc.
  - rewrite getClubs_all, listed_listOk by reflexivity.
    apply in_map, in_map, sortDesc_In. now left.
  - exists oid, data. split; [exact Hid|]. split; [exact Hd|].
    rewrite <- Hk.
    + reflexivity.
    + vm_compute. repeat constructor; intros H;
        repeat (destruct H as [H|H]; [discriminate H|]); exact H.
    + injection Hid as <-. vm_compute in Hd. injection Hd as <-.
      cbn. tauto.
Defined.

Lemma js_or_defined (a b : value) :
  b <> VUndefined -> b <> VNull ->
  js_or a b <> VUndefined /\ js_or a b <> VNull.
Proof.
  intros H1 H2. unfold js_or. destruct a; simpl; try (split; assumption);
    try (split; discriminate); destruct b0 || destruct (negb _) || destruct s;
    split; (assumption || discriminate).
Qed.

Lemma index_undefined (a : list float) (i : nat) :
  index a i = VUndefined <-> List.length a <= i.
Proof.
  unfold index. destruct (nth_error a i) as [x|] eqn:E.
  - split; [discriminate|]. intros H.
    apply nth_error_None in H. congruence.
  - split; [|reflexivity]. intros _. now apply nth_error_None.
Qed.

(** X5. In both projections [latitude] is [undefined] exactly when the
    stored coordinates array has fewer than two elements, and [longitude]
    exactly when it is empty; no other property of a served club object is
    ever [undefined] or [null]. *)
Theorem served_properties_defined (c : Club) :
  (get "latitude" (formattedClubs (select hidden c)) = VUndefined <->
     List.length (coordinates c) <= 1) /\
  (get "longitude" (formattedClubs (select hidden c)) = VUndefined <->
     List.length (coordinates c) <= 0) /\
  (get "latitude" (formattedClub (select hidden c)) = VUndefined <->
     List.length (coordinates c) <= 1) /\
  (get "longitude" (formattedClub (select hidden c)) = VUndefined <->
     List.length (coordinates c) <= 0) /\
  (forall k, In k (keys (formattedClubs (select hidden c))) ->
     k <> "latitude"%string -> k <> "longitude"%string ->
     get k (formattedClubs (select hidden c)) <> VUndefined /\
     get k (formattedClubs (select hidden c)) <> VNull) /\
  (forall k, In k (keys (formattedClub (select hidden c))) ->
     k <> "latitude"%string -> k <> "longitude"%string ->
     get k (formattedClub (select hidden c)) <> VUndefined /\
     get k (formattedClub (select hidden c)) <> VNull).
Proof.
  repeat split; try (cbn; apply index_undefined; assumption);
    try (intros H; cbn in H; now apply index_undefined in H).
  all: revert H H0 H1; intros Hk Hlat Hlng; cbn in Hk;
    repeat (destruct Hk as [<-|Hk];
            [first [congruence
                   | cbn -[js_or];
                     first [apply js_or_defined; discriminate | discriminate]]|]);
    destruct Hk.
Qed.

(** X6. A search string that is not empty but trims to nothing is not
    compiled to a pattern and filters nothing, yet counts as a search for
    the cap: on a reachable store the answer is the 20 newest clubs. *)
Theorem blank_search_lists_newest (d : Driver) (st : Store) (s : jsstring) :
  connected st = true -> s <> [] -> trim s = [] ->
  getClubs d st (Some s)
  = listOk (map (select hidden) (firstn 20 (sortDesc (clubs st)))).
Proof.
  intros Hconn Hs Ht.
  unfold getClubs, queryClubs, buildQuery, searchGiven, ofOption, Club_find.
  rewrite (truthy_string s Hs), Ht, Hconn. cbn [truthy andb].
  cbv iota. cbn [limit]. now rewrite filter_all.
Qed.

Lemma blank_search_lists_newest_witness :
  getClubs exampleDriver (mkStore true crowd) (Some (js "   "))
  = listOk (map (select hidden) (firstn 20 (sortDesc crowd))).
Proof.
  apply (blank_search_lists_newest exampleDriver (mkStore true crowd) (js "   "));
    [reflexivity | discriminate | reflexivity].
Defined.

(** * Further properties of the form script *)

Lemma nonEmpty_true (s : jsstring) : Intake.nonEmpty s = true <-> s <> [].
Proof.
  unfold Intake.nonEmpty. destruct s; simpl; split; intros H;
    try discriminate; try reflexivity. now elim H.
Qed.

Lemma collectLinks_app (a b : list (jsstring * jsstring)) :
  Intake.collectLinks (a ++ b)
  = Intake.collectLinks a ++ Intake.collectLinks b.
Proof. unfold Intake.collectLinks. now rewrite map_app, filter_app. Qed.

Lemma collectLinks_In (items : list (jsstring * jsstring))
    (l : jsstring * jsstring) :
  In l (Intake.collectLinks items) <->
  exists item, In item items /\ l = (trim (fst item), trim (snd item)) /\
               trim (fst item) <> [] /\ trim (snd item) <> [].
Proof.
  unfold Intake.collectLinks. rewrite filter_In, in_map_iff. split.
  - intros [(item & <- & Hin) H]. simpl in H.
    apply andb_prop in H as [H1 H2]. apply nonEmpty_true in H1, H2.
    now exists item.
  - intros (item & Hin & -> & H1 & H2). split; [now exists item|].
    simpl. apply andb_true_intro. split; now apply nonEmpty_true.
Qed.

Lemma collectLinks_clean (items : list (jsstring * jsstring)) :
  Forall cleanLink items -> Intake.collectLinks items = items.
Proof.
  induction 1 as [|[a b] items (Ha & Hb & Ta & Tb) _ IH]; [reflexivity|].
  change ((a, b) :: items) with ([(a, b)] ++ items).
  rewrite collectLinks_app, IH. simpl in *.
  unfold Intake.collectLinks. simpl.
  rewrite (trimmed_trim a Ta), (trimmed_trim b Tb).
  apply nonEmpty_true in Ha, Hb. now rewrite Ha, Hb.
Qed.

(** X7. [collectLinks] keeps, in order, exactly the rows whose type and url
    are both non-blank, each with its two values trimmed: every collected
    link has non-empty values without white space at either end, no row is
    invented, and collecting again what was collected changes nothing. *)
Theorem collectLinks_keeps_filled_rows (items : list (jsstring * jsstring)) :
  Forall cleanLink (Intake.collectLinks items) /\
  (forall l, In l (Intake.collectLinks items) <->
     exists item, In item items /\ l = (trim (fst item), trim (snd item)) /\
                  trim (fst item) <> [] /\ trim (snd item) <> []) /\
  List.length (Intake.collectLinks items) <= List.length items /\
  Intake.collectLinks (Intake.collectLinks items) = Intake.collectLinks items /\
  (forall more, Intake.collectLinks (items ++ more)
                = Intake.collectLinks items ++ Intake.collectLinks more).
Proof.
  assert (Hclean : Forall cleanLink (Intake.collectLinks items)).
  { apply Forall_forall. intros l Hl.
    apply collectLinks_In in Hl as (item & _ & -> & H1 & H2).
    repeat split; try assumption; apply trim_trimmed. }
  split; [exact Hclean|]. split; [apply collectLinks_In|].
  split; [|split].
  - unfold Intake.collectLinks.
    etransitivity; [apply filter_length_le|]. now rewrite length_map.
  - now apply collectLinks_clean.
  - apply collectLinks_app.
Qed.

Lemma rowValues_update (rows : list Page.LinkRow) :
  Page.rowValues (Page.updateRemoveButtonVisibility rows) = Page.rowValues rows.
Proof.
  unfold Page.rowValues, Page.updateRemoveButtonVisibility.
  rewrite map_map. now apply map_ext.
Qed.

Lemma update_consistent (rows : list Page.LinkRow) :
  buttonsConsistent (Page.updateRemoveButtonVisibility rows).
Proof.
  unfold buttonsConsistent, Page.updateRemoveButtonVisibility.
  rewrite length_map. apply Forall_forall. intros r Hr.
  apply in_map_iff in Hr as (r0 & <- & _). reflexivity.
Qed.

(** X8. Adding a link row, removing one and resetting the form each leave
    every remove button displayed exactly when more than one row remains;
    a reset leaves one row with its button hidden; and adding the empty row
    does not change the links [collectLinks] reads from the container. *)
Theorem link_rows_consistent (rows : list Page.LinkRow) (i : nat) :
  buttonsConsistent (Page.addNewLinkItem rows) /\
  buttonsConsistent (Page.removeLinkItem i rows) /\
  buttonsConsistent Page.resetLinks /\
  List.length (Page.addNewLinkItem rows) = S (List.length rows) /\
  Page.resetLinks = [Page.mkLinkRow [] [] false] /\
  Intake.collectLinks (Page.rowValues (Page.addNewLinkItem rows))
  = Intake.collectLinks (Page.rowValues rows) /\
  Intake.collectLinks (Page.rowValues Page.resetLinks) = [].
Proof.
  split; [apply update_consistent|].
  split; [apply update_consistent|].
  split; [apply update_consistent|].
  split; [|split; [reflexivity|split; [|reflexivity]]].
  - unfold Page.addNewLinkItem, Page.updateRemoveButtonVisibility.
    rewrite length_map, length_app. simpl. lia.
  - unfold Page.addNewLinkItem. rewrite rowValues_update.
    unfold Page.rowValues. rewrite map_app, collectLinks_app. simpl.
    apply app_nil_r.
Qed.

Lemma split_length (sep : char16 -> bool) (s : jsstring) :
  List.length (Intake.split sep s) = S (List.length (filter sep s)).
Proof.
  induction s as [|c s IH]; simpl; [reflexivity|].
  destruct (sep c); simpl; [now rewrite IH|].
  destruct (Intake.split sep s); simpl in *; lia.
Qed.

Lemma candidateTags_count (raw : jsstring) :
  List.length (candidateTags raw)
  <= S (List.length (filter Intake.isTagSeparator raw)).
Proof.
  unfold candidateTags. etransitivity; [apply filter_length_le|].
  now rewrite length_map, split_length.
Qed.

(** X9. An input with at most nine separators (commas, fullwidth commas,
    line feeds) is never refused by [parseTags], whatever else it contains,
    and the tags returned are at most one more than the separators. *)
Theorem parseTags_few_separators (raw : jsstring) :
  List.length (filter Intake.isTagSeparator raw) <= 9 ->
  exists tags,
    Intake.parseTags raw = Intake.Ok tags /\
    List.length tags <= S (List.length (filter Intake.isTagSeparator raw)).
Proof.
  intros H. exists (candidateTags raw).
  pose proof (candidateTags_count raw) as Hc.
  split; [|exact Hc]. rewrite parseTags_cases.
  destruct (Nat.ltb_spec 10 (List.length (candidateTags raw))); [lia|reflexivity].
Qed.

Lemma parseTags_few_separators_witness :
  exists tags,
    Intake.parseTags (js "unity, godot,,  ,c++") = Intake.Ok tags /\
    List.length tags <= 5.
Proof.
  apply (parseTags_few_separators (js "unity, godot,,  ,c++")).
  vm_compute. lia.
Defined.

Lemma split_unseparated (sep : char16 -> bool) (t : jsstring) :
  Forall (fun c => sep c = false) t -> Intake.split sep t = [t].
Proof.
  induction 1 as [|c t Hc _ IH]; simpl; [reflexivity|].
  now rewrite Hc, IH.
Qed.

Lemma split_at_separator (sep : char16 -> bool) (t rest : jsstring)
    (c : char16) :
  Forall (fun c => sep c = false) t -> sep c = true ->
  Intake.split sep (t ++ c :: rest) = t :: Intake.split sep rest.
Proof.
  intros Ht Hc. induction Ht as [|a t Ha _ IH]; simpl.
  - now rewrite Hc.
  - now rewrite Ha, IH.
Qed.

Lemma candidateTags_leading_space (s : jsstring) :
  candidateTags (32%N :: s) = candidateTags s.
Proof.
  unfold candidateTags. simpl Intake.split.
  pose proof (split_length Intake.isTagSeparator s) as Hl.
  destruct (Intake.split Intake.isTagSeparator s) as [|seg rest];
    [discriminate|].
  reflexivity.
Qed.

Lemma candidateTags_join (tags : list jsstring) :
  Forall cleanTag tags -> candidateTags (Page.join (js ", ") tags) = tags.
Proof.
  induction 1 as [|t tags (Hne & Ht & Hsep) Hrest IH]; [reflexivity|].
  assert (Hkeep : filter Intake.nonEmpty [trim t] = [t]).
  { rewrite (trimmed_trim t Ht). simpl.
    apply nonEmpty_true in Hne. now rewrite Hne. }
  destruct tags as [|t2 tags].
  - simpl Page.join. unfold candidateTags.
    now rewrite (split_unseparated _ t Hsep).
  - change (Page.join (js ", ") (t :: t2 :: tags))
      with (t ++ 44%N :: 32%N :: Page.join (js ", ") (t2 :: tags)).
    unfold candidateTags.
    rewrite (split_at_separator _ t _ 44%N Hsep eq_refl).
    change (t :: Intake.split Intake.isTagSeparator
                   (32%N :: Page.join (js ", ") (t2 :: tags)))
      with ([t] ++ Intake.split Intake.isTagSeparator
                     (32%N :: Page.join (js ", ") (t2 :: tags))).
    rewrite map_app, filter_app.
    change (filter Intake.nonEmpty
              (map trim (Intake.split Intake.isTagSeparator
                           (32%N :: Page.join (js ", ") (t2 :: tags)))))
      with (candidateTags (32%N :: Page.join (js ", ") (t2 :: tags))).
    change (map trim [t]) with [trim t].
    now rewrite Hkeep, candidateTags_leading_space, IH.
Qed.

(** X10. [parseTags] reads back the text [selectClub] composes from a
    club's tags (the tags joined by ", "): for at most 10 tags, each
    non-empty, without white space at either end and without a separator,
    it returns exactly those tags; for more than 10 such tags it throws;
    for a club without tags it returns none. *)
Theorem parseTags_reads_joined_tags (tags : list jsstring) :
  Forall cleanTag tags ->
  (List.length tags <= 10 ->
   Intake.parseTags (Page.tagsText (Some tags)) = Intake.Ok tags) /\
  (10 < List.length tags ->
   Intake.parseTags (Page.tagsText (Some tags))
   = Intake.Throw Intake.msgTooManyTags) /\
  Intake.parseTags (Page.tagsText None) = Intake.Ok [].
Proof.
  intros H. unfold Page.tagsText.
  rewrite parseTags_cases, (candidateTags_join tags H).
  split; [|split; [|reflexivity]]; intros Hl.
  - destruct (Nat.ltb_spec 10 (List.length tags)); [lia|reflexivity].
  - destruct (Nat.ltb_spec 10 (List.length tags)); [reflexivity|lia].
Qed.

Lemma parseTags_reads_joined_tags_witness :
  Page.tagsText (Some [js "Unity"; js "game jam"; [28216; 25103]%N])
  = js "Unity, game jam, " ++ [28216; 25103]%N /\
  Intake.parseTags (Page.tagsText
                      (Some [js "Unity"; js "game jam"; [28216; 25103]%N]))
  = Intake.Ok [js "Unity"; js "game jam"; [28216; 25103]%N].
Proof.
  split; [reflexivity|].
  apply (parseTags_reads_joined_tags
           [js "Unity"; js "game jam"; [28216; 25103]%N]).
  - repeat constructor; (discriminate || reflexivity).
  - simpl. lia.
Defined.

(** X11. Which error [validateCoordinates] throws: the invalid-number
    message exactly when a coordinate is NaN; the latitude message exactly
    when both are numbers and the latitude is out of range, whatever the
    longitude; the longitude message exactly when both are numbers, the
    latitude is in range and the longitude is not. It throws nothing
    else. *)
Theorem validateCoordinates_messages (lat lng : float) :
  (Intake.validateCoordinates lat lng = Intake.Throw Intake.msgInvalidNumber <->
     PrimFloat.is_nan lat = true \/ PrimFloat.is_nan lng = true) /\
  (Intake.validateCoordinates lat lng = Intake.Throw Intake.msgLatitudeRange <->
     PrimFloat.is_nan lat = false /\ PrimFloat.is_nan lng = false /\
     inRange (-90) 90 lat = false) /\
  (Intake.validateCoordinates lat lng = Intake.Throw Intake.msgLongitudeRange <->
     PrimFloat.is_nan lat = false /\ PrimFloat.is_nan lng = false /\
     inRange (-90) 90 lat = true /\ inRange (-180) 180 lng = false) /\
  (forall m, Intake.validateCoordinates lat lng = Intake.Throw m ->
     m = Intake.msgInvalidNumber \/ m = Intake.msgLatitudeRange \/
     m = Intake.msgLongitudeRange).
Proof.
  unfold Intake.validateCoordinates.
  destruct (PrimFloat.is_nan lat) eqn:Hlat; simpl.
  { repeat split; try discriminate; try tauto;
      try (intros (H & _); discriminate).
    intros m [= <-]. now left. }
  destruct (PrimFloat.is_nan lng) eqn:Hlng; simpl.
  { repeat split; try discriminate; try tauto;
      try (intros (_ & H & _); discriminate).
    intros m [= <-]. now left. }
  rewrite !outside_range by (assumption || reflexivity).
  destruct (inRange (-90) 90 lat), (inRange (-180) 180 lng); simpl;
    repeat split; try discriminate; try tauto;
    try (intros [H|H]; discriminate);
    try (intros (_ & _ & H); discriminate);
    try (intros (_ & _ & _ & H); discriminate);
    try (intros (_ & _ & H & _); discriminate);
    intros m [= <-]; tauto.
Qed.

Lemma buildPayload_accepts_iff (parseFloat : jsstring -> float)
    (f : Intake.Form) :
  (exists p, Intake.buildPayload parseFloat f = Intake.Ok p) <->
  inRange (-90) 90 (parseFloat (trim (Intake.latitudeInput f))) = true /\
  inRange (-180) 180 (parseFloat (trim (Intake.longitudeInput f))) = true /\
  List.length (candidateTags (Intake.tagsInput f)) <= 10.
Proof.
  unfold Intake.buildPayload, Intake.bind.
  rewrite parseTags_cases.
  pose proof (validateCoordinates_inRange
                (parseFloat (trim (Intake.latitudeInput f)))
                (parseFloat (trim (Intake.longitudeInput f)))) as [H1 H2].
  destruct (Intake.validateCoordinates _ _) as [[]|m].
  - destruct (H1 eq_refl) as [-> ->].
    destruct (Nat.ltb_spec 10 (List.length (candidateTags (Intake.tagsInput f)))).
    + split; [intros [p Hp]; discriminate | intros (_ & _ & H'); lia].
    + split; [intros _; repeat split; lia | intros _; eexists; reflexivity].
  - split; [intros [p Hp]; discriminate|].
    intros (Ha & Hb & _). now specialize (H2 (conj Ha Hb)).
Qed.

Lemma validateCoordinates_thrown (lat lng : float) (m : jsstring) :
  Intake.validateCoordinates lat lng = Intake.Throw m ->
  m <> Intake.msgTooManyTags.
Proof.
  unfold Intake.validateCoordinates.
  destruct (_ || _); [intros [= <-]; discriminate|].
  destruct (_ || _); [intros [= <-]; discriminate|].
  destruct (_ || _); [intros [= <-]; discriminate|discriminate].
Qed.

(** The [try] block of the submit listener, once entered: which inputs
    give a payload and which error is thrown otherwise. *)
Lemma buildPayload_accepts (parseFloat : jsstring -> float)
    (f : Intake.Form) :
  ((exists p, Intake.buildPayload parseFloat f = Intake.Ok p) <->
   inRange (-90) 90 (parseFloat (trim (Intake.latitudeInput f))) = true /\
   inRange (-180) 180 (parseFloat (trim (Intake.longitudeInput f))) = true /\
   List.length (candidateTags (Intake.tagsInput f)) <= 10) /\
  (Intake.buildPayload parseFloat f = Intake.Throw Intake.msgTooManyTags <->
   inRange (-90) 90 (parseFloat (trim (Intake.latitudeInput f))) = true /\
   inRange (-180) 180 (parseFloat (trim (Intake.longitudeInput f))) = true /\
   10 < List.length (candidateTags (Intake.tagsInput f))) /\
  (forall m,
     Intake.buildPayload parseFloat f = Intake.Throw m ->
     m <> Intake.msgTooManyTags ->
     Intake.validateCoordinates (parseFloat (trim (Intake.latitudeInput f)))
       (parseFloat (trim (Intake.longitudeInput f))) = Intake.Throw m).
Proof.
  split; [apply buildPayload_accepts_iff|].
  unfold Intake.buildPayload, Intake.bind. rewrite parseTags_cases.
  pose proof (validateCoordinates_inRange
                (parseFloat (trim (Intake.latitudeInput f)))
                (parseFloat (trim (Intake.longitudeInput f)))) as [H1 H2].
  pose proof (validateCoordinates_thrown
                (parseFloat (trim (Intake.latitudeInput f)))
                (parseFloat (trim (Intake.longitudeInput f)))) as Hm.
  destruct (Intake.validateCoordinates _ _) as [[]|m].
  - destruct (H1 eq_refl) as [-> ->].
    destruct (Nat.ltb_spec 10 (List.length (candidateTags (Intake.tagsInput f)))).
    + split; [tauto|]. intros m [= <-] Hne. now elim Hne.
    + split; [|discriminate]. split; [discriminate|]. intros (_ & _ & H'). lia.
  - split; [|intros m' [= <-] _; reflexivity].
    split.
    + intros [= ->]. now elim (Hm _ eq_refl).
    + intros (Ha & Hb & _). now specialize (H2 (conj Ha Hb)).
Qed.

Lemma buildPayload_thrown (parseFloat : jsstring -> float)
    (f : Intake.Form) (m : jsstring) :
  Intake.buildPayload parseFloat f = Intake.Throw m ->
  m = Intake.msgInvalidNumber \/ m = Intake.msgLatitudeRange \/
  m = Intake.msgLongitudeRange \/ m = Intake.msgTooManyTags.
Proof.
  unfold Intake.buildPayload, Intake.bind, Intake.validateCoordinates.
  destruct (_ || _); [intros [= <-]; tauto|].
  destruct (_ || _); [intros [= <-]; tauto|].
  destruct (_ || _); [intros [= <-]; tauto|].
  rewrite parseTags_cases.
  destruct (_ <? _)%nat; [intros [= <-]; tauto | discriminate].
Qed.

(** X12. The submit listener builds a payload exactly when
    [form.reportValidity()] holds, the latitude and longitude parse to
    numbers in range and the tags input holds at most 10 tags, and the
    payload is then the one the [try] block builds. When the validity
    check fails it shows the check-required message and nothing else is
    examined. Otherwise the coordinates are checked first: the
    too-many-tags message is shown only with valid coordinates, and any
    other message shown is the one [validateCoordinates] throws. *)
Theorem onSubmit_builds_payload (parseFloat : jsstring -> float)
    (valid : bool) (f : Intake.Form) :
  ((exists p, Page.onSubmit parseFloat valid f = Page.Built p) <->
   valid = true /\
   inRange (-90) 90 (parseFloat (trim (Intake.latitudeInput f))) = true /\
   inRange (-180) 180 (parseFloat (trim (Intake.longitudeInput f))) = true /\
   List.length (candidateTags (Intake.tagsInput f)) <= 10) /\
  (forall p, Page.onSubmit parseFloat valid f = Page.Built p ->
             Intake.buildPayload parseFloat f = Intake.Ok p) /\
  (Page.onSubmit parseFloat valid f = Page.StatusError Page.msgCheckRequired <->
   valid = false) /\
  (Page.onSubmit parseFloat valid f = Page.StatusError Intake.msgTooManyTags <->
   valid = true /\
   inRange (-90) 90 (parseFloat (trim (Intake.latitudeInput f))) = true /\
   inRange (-180) 180 (parseFloat (trim (Intake.longitudeInput f))) = true /\
   10 < List.length (candidateTags (Intake.tagsInput f))) /\
  (forall m,
     Page.onSubmit parseFloat valid f = Page.StatusError m ->
     m <> Page.msgCheckRequired -> m <> Intake.msgTooManyTags ->
     Intake.validateCoordinates (parseFloat (trim (Intake.latitudeInput f)))
       (parseFloat (trim (Intake.longitudeInput f))) = Intake.Throw m).
Proof.
  destruct (buildPayload_accepts parseFloat f) as (A & B & C).
  pose proof (buildPayload_thrown parseFloat f) as T.
  unfold Page.onSubmit. destruct valid; simpl.
  - destruct (Intake.buildPayload parseFloat f) as [p|m].
    + split; [|split; [|split; [|split]]].
      * split; [intros _; split; [reflexivity|]; apply A; now exists p
               | intros _; now exists p].
      * now intros p' [= <-].
      * split; discriminate.
      * split; [discriminate|]. intros (_ & H). apply B in H. discriminate.
      * discriminate.
    + assert (Hshown : match m with [] => Page.msgSubmitFailed | _ :: _ => m end = m)
        by (destruct (T m eq_refl) as [->|[->|[->| ->]]]; reflexivity).
      rewrite Hshown.
      split; [|split; [|split; [|split]]].
      * split; [intros [p Hp]; discriminate|].
        intros (_ & H). apply A in H as [p Hp]. discriminate.
      * discriminate.
      * split; [|discriminate]. intros [= ->].
        destruct (T _ eq_refl) as [E|[E|[E|E]]]; discriminate.
      * split.
        -- intros [= ->]. split; [reflexivity|]. now apply B.
        -- intros (_ & H). apply B in H. congruence.
      * intros m' [= <-] _ Hne. now apply C.
  - split; [|split; [|split; [|split]]].
    + split; [intros [p Hp]; discriminate | intros (H & _); discriminate].
    + discriminate.
    + split; reflexivity.
    + split; [discriminate | intros (H & _); discriminate].
    + intros m [= <-] Hne. now elim Hne.
Qed.

(** X13. In every payload the submit handler builds, the name, school,
    city, both descriptions and the submitter's email have no white space
    at either end, the tags are at most 10 clean tags, every link has two
    non-blank trimmed parts, and the id of a club to edit is present only
    in edit mode: a submission in new mode never names one, even while a
    club is still selected. *)
Theorem payload_fields_clean (parseFloat : jsstring -> float)
    (f : Intake.Form) (p : Intake.Payload) :
  Intake.buildPayload parseFloat f = Intake.Ok p ->
  trimmed (Intake.name p) /\ trimmed (Intake.school p) /\
  trimmed (Intake.city p) /\ trimmed (Intake.short_description p) /\
  trimmed (Intake.long_description p) /\ trimmed (Intake.submitterEmail p) /\
  Intake.province p = Intake.provinceSelect f /\
  Intake.submissionType p = Intake.currentMode f /\
  Forall cleanTag (Intake.tags p) /\ List.length (Intake.tags p) <= 10 /\
  Forall cleanLink (Intake.external_links p) /\
  (Intake.currentMode f = Intake.ModeNew -> Intake.editingClubId p = None) /\
  (Intake.currentMode f = Intake.ModeEdit ->
   Intake.editingClubId p = Intake.selectedClub f).
Proof.
  unfold Intake.buildPayload, Intake.bind.
  destruct (Intake.validateCoordinates _ _) as [[]|m]; [|discriminate].
  rewrite parseTags_cases.
  destruct (Nat.ltb_spec 10 (List.length (candidateTags (Intake.tagsInput f))));
    [discriminate|].
  intros [= <-]. simpl.
  repeat (split; [apply trim_trimmed|]).
  split; [reflexivity|]. split; [reflexivity|].
  split.
  { apply Forall_forall. intros tag Htag.
    destruct (candidateTags_shape _ _ Htag) as (H1 & H2 & H3 & _).
    exact (conj H1 (conj H2 H3)). }
  split; [assumption|]. split.
  { apply Forall_forall. intros l Hl.
    apply collectLinks_In in Hl as (item & _ & -> & H1 & H2).
    exact (conj H1 (conj H2 (conj (trim_trimmed _) (trim_trimmed _)))). }
  split; intros ->; reflexivity.
Qed.

Lemma payload_fields_clean_witness :
  exists p,
    Intake.buildPayload scenarioParseFloat scenarioForm = Intake.Ok p /\
    Intake.name p = [28216; 25103; 31038]%N /\
    Intake.tags p = [js "Unity"; js "game jam"] /\
    Intake.external_links p = [(js "GitHub", js "https://github.com/x")] /\
    Intake.editingClubId p = None /\
    trimmed (Intake.submitterEmail p).
Proof.
  eexists. split; [vm_compute; reflexivity|].
  split; [reflexivity|]. split; [reflexivity|]. split; [reflexivity|].
  split; [reflexivity|].
  eapply (payload_fields_clean scenarioParseFloat scenarioForm).
  vm_compute. reflexivity.
Defined.

(** * The club search of edit mode *)

Section SearchFacts.

Variable toLowerCase : jsstring -> jsstring.

Lemma filterClubs_resolved (query : jsstring) (clubs found : list value) :
  Page.filterClubs toLowerCase query clubs = Resolved found ->
  found = filter (keeps toLowerCase query) clubs.
Proof.
  revert found. induction clubs as [|c clubs IH]; simpl; intros found.
  - now intros [= <-].
  - unfold keeps.
    destruct (Page.matchesQuery toLowerCase query c) as [b|]; [|discriminate].
    destruct (Page.filterClubs toLowerCase query clubs) as [l|]; [|discriminate].
    intros [= <-]. rewrite (IH l eq_refl). now destruct b.
Qed.

Lemma filterClubs_rejected (query : jsstring) (clubs : list value)
    (club : value) :
  In club clubs ->
  Page.matchesQuery toLowerCase query club = Rejected ->
  Page.filterClubs toLowerCase query clubs = Rejected.
Proof.
  induction clubs as [|c clubs IH]; simpl; [easy|].
  intros [<-|Hin] Hr.
  - now rewrite Hr.
  - rewrite (IH Hin Hr).
    now destruct (Page.matchesQuery toLowerCase query c).
Qed.

Lemma keeps_true (query : jsstring) (club : value) :
  keeps toLowerCase query club = true <->
  Page.matchesQuery toLowerCase query club = Resolved true.
Proof.
  unfold keeps.
  destruct (Page.matchesQuery toLowerCase query club) as [[|]|];
    split; congruence.
Qed.

Lemma nameless_rejected (query : jsstring) (club : value) :
  (forall s, get "name" club <> VStr s) ->
  Page.matchesQuery toLowerCase query club = Rejected.
Proof.
  intros H. unfold Page.matchesQuery.
  destruct (get "name" club) as [| | | |s| |] eqn:E; try reflexivity.
  now elim (H s).
Qed.

End SearchFacts.

(** X14. When the club search shows results, the typed text lower-cased
    and trimmed has at least two characters, the loaded data is an array,
    and the results are the first ten, in file order, of the entries for
    which the filter holds: at most ten, each an entry of the data whose
    name, school, city or one of whose tags contains the query. *)
Theorem search_results_sound (toLowerCase : jsstring -> jsstring)
    (clubsData : value) (fetched : Page.Fetched) (input : jsstring)
    (data : value) (found : list value) :
  Page.onSearchInput toLowerCase clubsData fetched input
    = (data, Page.Results found) ->
  let query := trim (toLowerCase input) in
  2 <= List.length query /\
  List.length found <= 10 /\
  exists clubs,
    data = VArr clubs /\
    found = firstn 10 (filter (keeps toLowerCase query) clubs) /\
    Forall (fun club =>
              In club clubs /\
              Page.matchesQuery toLowerCase query club = Resolved true) found.
Proof.
  cbv zeta. unfold Page.onSearchInput.
  destruct (Nat.ltb_spec (List.length (trim (toLowerCase input))) 2) as [|Hq];
    [discriminate|].
  set (query := trim (toLowerCase input)) in *.
  destruct (if negb (truthy clubsData) then _ else _) as [d0|]; [|discriminate].
  destruct d0 as [| | | | |clubs|]; try discriminate.
  destruct (Page.filterClubs toLowerCase query clubs) as [l|] eqn:E;
    [|discriminate].
  intros H. assert (Hd : data = VArr clubs) by congruence.
  assert (Hf : found = firstn 10 l) by congruence.
  apply filterClubs_resolved in E. subst l found data.
  split; [exact Hq|]. split; [rewrite length_firstn; apply Nat.le_min_l|].
  exists clubs. split; [reflexivity|]. split; [reflexivity|].
  apply Forall_forall. intros club Hin.
  assert (Hin' : In club (filter (keeps toLowerCase query) clubs)).
  { rewrite <- (firstn_skipn 10 (filter _ clubs)). apply in_or_app. now left. }
  apply filter_In in Hin' as [H1 H2]. split; [exact H1|].
  now apply keeps_true.
Qed.

Lemma search_results_sound_witness :
  Page.onSearchInput asciiToLowerCase VUndefined
    (Page.Body (Resolved (VArr [entryA; entryB]))) (js " UNITY ")
  = (VArr [entryA; entryB], Page.Results [entryA]) /\
  List.length [entryA] <= 10.
Proof.
  split; [reflexivity|].
  apply (search_results_sound asciiToLowerCase VUndefined
           (Page.Body (Resolved (VArr [entryA; entryB]))) (js " UNITY ")
           (VArr [entryA; entryB]) [entryA] eq_refl).
Defined.

(** X15. One entry of the loaded data without a string [name] makes every
    search of at least two characters end in the failure message, whatever
    the other entries are, and the data stays cached as it is. *)
Theorem search_fails_on_nameless_entry (toLowerCase : jsstring -> jsstring)
    (clubs : list value) (club : value) (fetched : Page.Fetched)
    (input : jsstring) :
  In club clubs ->
  (forall s, get "name" club <> VStr s) ->
  2 <= List.length (trim (toLowerCase input)) ->
  Page.onSearchInput toLowerCase (VArr clubs) fetched input
  = (VArr clubs, Page.SearchFailed).
Proof.
  intros Hin Hname Hq. unfold Page.onSearchInput.
  destruct (Nat.ltb_spec (List.length (trim (toLowerCase input))) 2); [lia|].
  simpl.
  now rewrite (filterClubs_rejected toLowerCase _ clubs club Hin
                 (nameless_rejected toLowerCase _ club Hname)).
Qed.

Lemma search_fails_on_nameless_entry_witness :
  Page.onSearchInput asciiToLowerCase (VArr [entryA; entryNameless; entryB])
    Page.NotOk (js "pixel")
  = (VArr [entryA; entryNameless; entryB], Page.SearchFailed).
Proof.
  apply (search_fails_on_nameless_entry asciiToLowerCase
           [entryA; entryNameless; entryB] entryNameless).
  - right. now left.
  - intros s. discriminate.
  - vm_compute. lia.
Defined.

(** X16. Once [window.clubsData] holds a true value the search never
    fetches again and never replaces it: the outcome is the same whatever a
    fetch would answer. With fewer than two characters typed it clears the
    results without loading anything, and a load that fails caches
    nothing. *)
Theorem search_data_cached (toLowerCase : jsstring -> jsstring)
    (clubsData : value) (fetched fetched' : Page.Fetched) (input : jsstring) :
  (truthy clubsData = true ->
   Page.onSearchInput toLowerCase clubsData fetched input
   = Page.onSearchInput toLowerCase clubsData fetched' input /\
   fst (Page.onSearchInput toLowerCase clubsData fetched input) = clubsData) /\
  (List.length (trim (toLowerCase input)) < 2 ->
   Page.onSearchInput toLowerCase clubsData fetched input
   = (clubsData, Page.Cleared)) /\
  (truthy clubsData = false ->
   2 <= List.length (trim (toLowerCase input)) ->
   fetched = Page.FetchFailed \/ fetched = Page.NotOk \/
   fetched = Page.Body Rejected ->
   Page.onSearchInput toLowerCase clubsData fetched input
   = (clubsData, Page.SearchFailed)).
Proof.
  unfold Page.onSearchInput. split; [|split].
  - intros Ht. rewrite Ht. simpl.
    destruct (_ <? 2)%nat; [now split|].
    destruct clubsData as [| | | | |clubs|]; try (now split).
    now destruct (Page.filterClubs toLowerCase _ clubs).
  - intros H. apply Nat.ltb_lt in H. now rewrite H.
  - intros Ht Hq Hf. rewrite Ht. simpl.
    destruct (Nat.ltb_spec (List.length (trim (toLowerCase input))) 2); [lia|].
    now destruct Hf as [->|[->| ->]].
Qed.
